(** * ImgCurv: the radial two-focus HSL gradient adjuster

    A shallow embedding of [src/ImgCurv.py]
    ([apply_circular_gradient_hsl_curves] and its two nested converters
    [rgb_to_hsl] and [hsl_to_rgb]) and the properties its specification
    states about it.

    Numbers.  The Python code computes on binary64 floats.  The main
    embedding reads every float operation as the exact operation on real
    numbers: [+ - * /], [abs], [max], [min], [np.sqrt], [np.clip] and the
    float remainder [%] are the mathematical functions on [R].  Rounding
    error, infinities and NaN are outside that model, and so is a division
    by zero (a zero [gradient_radius_px]).  An equality between computed
    reals is to be read up to rounding; hypotheses keep the statements to
    the inputs on which the code computes finite numbers without integer
    wrap-around.  Where the float behaviour of the two converters itself
    is at stake, module [F64] holds their transcription on binary64
    floats, which evaluates bit for bit as the Python code does. *)

From Stdlib Require Import Floats Uint63.
From Stdlib Require Import Reals ZArith List Ascii Bool Lra Lia Psatz.
Import ListNotations.

#[local] Set Warnings "-inexact-float".

Open Scope R_scope.

(** ** Python and NumPy primitives *)

Module Py.

(** [math.floor]. *)
Definition floor (x : R) : Z := Int_part x.

(** [a % b] on floats: the remainder that takes the sign of [b].  This is
    the exact remainder, in [[0, b)] for [b > 0]; the float operation
    rounds, and returns [b] itself for a tiny negative [a] (see
    [F64.py_mod]). *)
Definition modulo (a b : R) : R := a - b * IZR (floor (a / b)).

(** [int(x)]: truncation toward zero. *)
Definition int (x : R) : Z :=
  if Rle_dec 0 x then floor x else (- floor (- x))%Z.

(** [max(a, b, c)] and [min(a, b, c)]. *)
Definition max3 (a b c : R) : R := Rmax (Rmax a b) c.
Definition min3 (a b c : R) : R := Rmin (Rmin a b) c.

(** [np.clip(x, lo, hi)], which NumPy computes as
    [minimum(maximum(x, lo), hi)]. *)
Definition clip (x lo hi : R) : R := Rmin (Rmax x lo) hi.

(** The chained comparison [lo <= x < hi]. *)
Definition between (lo x hi : R) : {lo <= x < hi} + {~ (lo <= x < hi)}.
Proof.
  destruct (Rle_dec lo x) as [Hl | Hl].
  - destruct (Rlt_dec x hi) as [Hh | Hh].
    + left; split; assumption.
    + right; intros [_ H]; exact (Hh H).
  - right; intros [H _]; exact (Hl H).
Defined.

End Py.

(** ** The colour-space converters *)

Definition hsl : Type := (R * R * R)%type.
Definition rgb : Type := (R * R * R)%type.

(** [rgb_to_hsl], lines 39-56.  The [elif] chain on the maximal channel
    is kept as written, with its implicit fall-through that leaves
    [h = 0]. *)
Definition rgb_to_hsl (r g b : R) : hsl :=
  let max_val := Py.max3 r g b in
  let min_val := Py.min3 r g b in
  let l := (max_val + min_val) / 2 in
  if Req_dec_T max_val min_val then
    (0 * 360, 0, l)
  else
    let d := max_val - min_val in
    let s := if Rgt_dec l (1 / 2)
             then d / (2 - max_val - min_val)
             else d / (max_val + min_val) in
    let h :=
      if Req_dec_T max_val r then (g - b) / d + (if Rlt_dec g b then 0 else 6)
      else if Req_dec_T max_val g then (b - r) / d + 2
      else if Req_dec_T max_val b then (r - g) / d + 4
      else 0 in
    (h / 6 * 360, s, l).

(** [hsl_to_rgb], lines 113-127.  [x] is computed from the hue as passed
    in; the hue is reduced modulo 360 only afterwards.  In exact
    arithmetic the reduced hue is below 360 and one of the six branches is
    always taken; on floats the reduced hue can be 360.0, and then none is
    (see [F64.hsl_to_rgb]). *)
Definition hsl_to_rgb (h s l : R) : rgb :=
  let c := (1 - Rabs (2 * l - 1)) * s in
  let x := c * (1 - Rabs (Py.modulo (h / 60) 2 - 1)) in
  let m := l - c / 2 in
  let h := Py.modulo h 360 in
  let '(r, g, b) :=
    if Py.between 0 h 60 then (c, x, 0)
    else if Py.between 60 h 120 then (x, c, 0)
    else if Py.between 120 h 180 then (0, c, x)
    else if Py.between 180 h 240 then (0, x, c)
    else if Py.between 240 h 300 then (x, 0, c)
    else if Py.between 300 h 360 then (c, 0, x)
    else (0, 0, 0) in
  ((r + m) * 255, (g + m) * 255, (b + m) * 255).

(** The pieces of the two converters that the proofs name: the
    saturation [s] that [rgb_to_hsl] computes for a chromatic pixel, the
    chroma [c] and the match value [m] of [hsl_to_rgb], and the call
    [hsl_to_rgb] on the unpacked result of [rgb_to_hsl]. *)
Definition saturation_of (max_val min_val : R) : R :=
  if Rgt_dec ((max_val + min_val) / 2) (1 / 2)
  then (max_val - min_val) / (2 - max_val - min_val)
  else (max_val - min_val) / (max_val + min_val).

Definition chroma (s l : R) : R := (1 - Rabs (2 * l - 1)) * s.
Definition match_value (s l : R) : R := l - chroma s l / 2.

Definition roundtrip (r g b : R) : rgb :=
  let '(h, s, l) := rgb_to_hsl r g b in hsl_to_rgb h s l.

(** ** The converters on binary64 floats

    The same two functions on Rocq's primitive floats, which are the
    binary64 floats of Python.  Python's integer constants are read as the
    floats they are converted to. *)

Module F64.

Local Open Scope float_scope.

(** C's [fmod] on finite floats with a non-zero divisor: the exact
    remainder of the truncated division, with the sign of [x], computed
    on the integer mantissas. *)
Definition fmod (x y : float) : float :=
  match Prim2SF x, Prim2SF y with
  | S754_finite sx mx ex, S754_finite _ my ey =>
      let e := Z.min ex ey in
      let X := (Zpos mx * 2 ^ (ex - e))%Z in
      let Y := (Zpos my * 2 ^ (ey - e))%Z in
      let r := Z.ldexp (of_uint63 (of_Z (X mod Y))) e in
      if sx then - r else r
  | S754_zero _, S754_finite _ _ _ => x
  | _, _ => nan
  end.

(** [x % y] on floats, as CPython and NumPy compute it: [fmod], then one
    addition of [y] when the signs differ.  That addition rounds: a tiny
    negative [x] gives [y] itself. *)
Definition py_mod (x y : float) : float :=
  let m := fmod x y in
  if m =? 0 then (if y <? 0 then -0 else 0)
  else if Bool.eqb (y <? 0) (m <? 0) then m else m + y.

(** [max(a, b, c)] and [min(a, b, c)]: the first largest, or smallest. *)
Definition max3 (a b c : float) : float :=
  let m := if a <? b then b else a in
  if m <? c then c else m.

Definition min3 (a b c : float) : float :=
  let m := if b <? a then b else a in
  if c <? m then c else m.

(** [rgb_to_hsl], lines 39-56. *)
Definition rgb_to_hsl (r g b : float) : float * float * float :=
  let max_val := max3 r g b in
  let min_val := min3 r g b in
  let l := (max_val + min_val) / 2 in
  if max_val =? min_val then
    (0 * 360, 0, l)
  else
    let d := max_val - min_val in
    let s := if 0.5 <? l
             then d / (2 - max_val - min_val)
             else d / (max_val + min_val) in
    let h :=
      if max_val =? r then (g - b) / d + (if g <? b then 0 else 6)
      else if max_val =? g then (b - r) / d + 2
      else if max_val =? b then (r - g) / d + 4
      else 0 in
    (h / 6 * 360, s, l).

(** The chained comparison [lo <= x < hi]. *)
Definition between (lo x hi : float) : bool := (lo <=? x) && (x <? hi).

(** [hsl_to_rgb], lines 113-127. *)
Definition hsl_to_rgb (h s l : float) : float * float * float :=
  let c := (1 - abs (2 * l - 1)) * s in
  let x := c * (1 - abs (py_mod (h / 60) 2 - 1)) in
  let m := l - c / 2 in
  let h := py_mod h 360 in
  let '(r, g, b) :=
    if between 0 h 60 then (c, x, 0)
    else if between 60 h 120 then (x, c, 0)
    else if between 120 h 180 then (0, c, x)
    else if between 180 h 240 then (0, x, c)
    else if between 240 h 300 then (x, 0, c)
    else if between 300 h 360 then (c, 0, x)
    else (0, 0, 0) in
  ((r + m) * 255, (g + m) * 255, (b + m) * 255).

Definition roundtrip (r g b : float) : float * float * float :=
  let '(h, s, l) := rgb_to_hsl r g b in hsl_to_rgb h s l.

(** [lo <= v <= hi], and "[a] is within [tol] of [b]". *)
Definition in_range (lo v hi : float) : bool := (lo <=? v) && (v <=? hi).
Definition within (tol a b : float) : bool := abs (a - b) <=? tol.

End F64.

(** ** Configuration

    The keyword arguments of [apply_circular_gradient_hsl_curves]
    (lines 5-14), apart from the two file paths. *)

Record config : Type := Config {
  red_center_percent : R * R;
  blue_center_percent : R * R;
  gradient_radius_px : R;
  max_hue_shift_deg : R;
  max_saturation_adjust : R;
  max_lightness_adjust : R;
  red_mix_hue_deg : R;
  blue_mix_hue_deg : R;
  secondary_mix_factor : R
}.

(** The defaults of the signature. *)
Definition default_config : config := {|
  red_center_percent := (1 / 10, 9 / 10);
  blue_center_percent := (9 / 10, 1 / 10);
  gradient_radius_px := 200;
  max_hue_shift_deg := 30;
  max_saturation_adjust := 2 / 10;
  max_lightness_adjust := 1 / 10;
  red_mix_hue_deg := 0;
  blue_mix_hue_deg := 240;
  secondary_mix_factor := 1 / 2
|}.

Definition with_secondary_mix_factor (cfg : config) (v : R) : config := {|
  red_center_percent := red_center_percent cfg;
  blue_center_percent := blue_center_percent cfg;
  gradient_radius_px := gradient_radius_px cfg;
  max_hue_shift_deg := max_hue_shift_deg cfg;
  max_saturation_adjust := max_saturation_adjust cfg;
  max_lightness_adjust := max_lightness_adjust cfg;
  red_mix_hue_deg := red_mix_hue_deg cfg;
  blue_mix_hue_deg := blue_mix_hue_deg cfg;
  secondary_mix_factor := v
|}.

(** ** The influence fields (lines 64-82) *)

(** [(int(percent[0] * width), int(percent[1] * height))], with the
    exact product; the code truncates the rounded product, which can be
    one less when the exact product is an integer. *)
Definition center_px (percent : R * R) (width height : Z) : Z * Z :=
  (Py.int (fst percent * IZR width), Py.int (snd percent * IZR height)).

(** Arithmetic of an int64 NumPy array: results are reduced to the
    64-bit two's-complement range. *)
Definition int64 (z : Z) : Z := ((z + 2 ^ 63) mod 2 ^ 64 - 2 ^ 63)%Z.

(** [np.sqrt((x_coords - cx)**2 + (y_coords - cy)**2)] at one pixel.
    The coordinate arrays are int64: the differences, the squares and
    their sum wrap around, and the root is a float.  The centre is taken
    to fit in int64; the root of a sum that has wrapped to a negative
    number is NaN in the code and is outside the model. *)
Definition dist_to_center (center : Z * Z) (x y : Z) : R :=
  let dx := int64 (x - fst center) in
  let dy := int64 (y - snd center) in
  sqrt (IZR (int64 (int64 (dx ^ 2) + int64 (dy ^ 2)))).

(** [np.clip(1 - (dist / gradient_radius_px), 0, 1)], for a non-zero
    radius; the code divides by a zero radius to infinity or NaN, which is
    outside the model. *)
Definition weight_of_dist (radius dist : R) : R :=
  Py.clip (1 - dist / radius) 0 1.

Definition weight (radius : R) (center : Z * Z) (x y : Z) : R :=
  weight_of_dist radius (dist_to_center center x y).

Definition weight_red (cfg : config) (width height x y : Z) : R :=
  weight (gradient_radius_px cfg)
         (center_px (red_center_percent cfg) width height) x y.

Definition weight_blue (cfg : config) (width height x y : Z) : R :=
  weight (gradient_radius_px cfg)
         (center_px (blue_center_percent cfg) width height) x y.

(** [np.clip(weight_red + weight_blue, 0, 1)]. *)
Definition total_weight (red_influence blue_influence : R) : R :=
  Py.clip (red_influence + blue_influence) 0 1.

Definition total_weight_influence (cfg : config) (width height x y : Z) : R :=
  total_weight (weight_red cfg width height x y)
               (weight_blue cfg width height x y).

(** ** The per-pixel adjustment (the body of the loop, lines 89-110) *)

(** [red_mix_hue_deg if red_influence > blue_influence else blue_mix_hue_deg]. *)
Definition target_hue (cfg : config) (red_influence blue_influence : R) : R :=
  if Rgt_dec red_influence blue_influence
  then red_mix_hue_deg cfg else blue_mix_hue_deg cfg.

(** [(1 if red_influence > blue_influence else -1)]. *)
Definition sign (red_influence blue_influence : R) : R :=
  if Rgt_dec red_influence blue_influence then 1 else -1.

(** Line 99; the value is bound and never read again. *)
Definition hue_mix_factor (cfg : config) (red_influence blue_influence : R) : R :=
  red_influence * secondary_mix_factor cfg
  + blue_influence * secondary_mix_factor cfg.

Definition adjust (cfg : config) (red_influence blue_influence total : R)
    (p : hsl) : hsl :=
  let '(h, s, l) := p in
  let _hue_mix_factor := hue_mix_factor cfg red_influence blue_influence in
  let target := target_hue cfg red_influence blue_influence in
  let h_adjusted :=
    Py.modulo (h + (target - h) * total * (max_hue_shift_deg cfg / 360)) 360 in
  let s_adjusted :=
    Py.clip (s + total * max_saturation_adjust cfg
                 * sign red_influence blue_influence) 0 1 in
  let l_adjusted :=
    Py.clip (l + total * max_lightness_adjust cfg
                 * sign red_influence blue_influence) 0 1 in
  (h_adjusted, s_adjusted, l_adjusted).

(** The adjusted HSL triple of the pixel at column [x], row [y]. *)
Definition adjust_at (cfg : config) (width height x y : Z) (p : hsl) : hsl :=
  adjust cfg (weight_red cfg width height x y)
             (weight_blue cfg width height x y)
             (total_weight_influence cfg width height x y) p.

(** ** Buffers and the pipeline *)

(** A decoded 8-bit RGB image: a list of rows of pixels. *)
Definition rgb8 : Type := (Z * Z * Z)%type.
Definition image : Type := list (list rgb8).

Definition image_height (img : image) : Z := Z.of_nat (length img).
Definition image_width (img : image) : Z := Z.of_nat (length (hd [] img)).

(** [np.array(img_rgb) / 255.0] at one pixel. *)
Definition normalize (p : rgb8) : rgb :=
  let '(r, g, b) := p in (IZR r / 255, IZR g / 255, IZR b / 255).

(** The store of a float into the [np.uint8] buffer (line 132): a C cast,
    which drops the fractional part and keeps the low eight bits. *)
Definition to_uint8 (v : R) : Z := (Py.int v mod 256)%Z.

Definition store_rgb (p : rgb) : rgb8 :=
  let '(r, g, b) := p in (to_uint8 r, to_uint8 g, to_uint8 b).

(** [for i in range(...)] over a buffer, with the running index. *)
Fixpoint mapi_from {A B : Type} (f : Z -> A -> B) (i : Z) (l : list A) : list B :=
  match l with
  | [] => []
  | a :: l' => f i a :: mapi_from f (i + 1)%Z l'
  end.

Definition mapi {A B : Type} (f : Z -> A -> B) (l : list A) : list B :=
  mapi_from f 0%Z l.

Definition pixels_rgb_of (img : image) : list (list rgb) :=
  map (map normalize) img.

Definition pixels_hsl_of (pixels_rgb : list (list rgb)) : list (list hsl) :=
  map (map (fun '(r, g, b) => rgb_to_hsl r g b)) pixels_rgb.

Definition processed_hsl_of (cfg : config) (width height : Z)
    (pixels_hsl : list (list hsl)) : list (list hsl) :=
  mapi (fun y row => mapi (fun x p => adjust_at cfg width height x y p) row)
       pixels_hsl.

Definition processed_rgb_uint8_of (processed_hsl : list (list hsl)) : image :=
  map (map (fun '(h, s, l) => store_rgb (hsl_to_rgb h s l))) processed_hsl.

(** What the three loops do to one input pixel at column [x], row [y]. *)
Definition process_pixel (cfg : config) (width height x y : Z) (p : rgb8) : rgb8 :=
  let '(r, g, b) := normalize p in
  let '(h, s, l) := adjust_at cfg width height x y (rgb_to_hsl r g b) in
  store_rgb (hsl_to_rgb h s l).

(** The only exception the function can raise is that of [Image.open]. *)
Inductive exn : Type := OSError.

Inductive outcome (A : Type) : Type :=
| Returned (a : A)
| Raised (e : exn).
Arguments Returned {A} a.
Arguments Raised {A} e.

(** [apply_circular_gradient_hsl_curves], from the opening of the input
    (line 33) to the filling of the output buffer (line 132).  [decoded]
    is what [Image.open(image_path).convert("RGB")] yields: [None] when
    the file is missing or is not an image.  The result is the pair
    [(pixels_rgb, processed_rgb_uint8)] that the function returns when
    the save of line 135 succeeds; the save is in [apply_and_save]. *)
Definition apply_circular_gradient_hsl_curves (cfg : config)
    (decoded : option image) : outcome (list (list rgb) * image) :=
  match decoded with
  | None => Raised OSError
  | Some img_rgb =>
      let width := image_width img_rgb in
      let height := image_height img_rgb in
      let pixels_rgb := pixels_rgb_of img_rgb in
      let pixels_hsl := pixels_hsl_of pixels_rgb in
      let processed_hsl := processed_hsl_of cfg width height pixels_hsl in
      Returned (pixels_rgb, processed_rgb_uint8_of processed_hsl)
  end.

(** The whole call, with its two file operations.  [save] tells whether
    [processed_img.save(output_path)] (line 135) succeeds on the image it
    is given; it raises for an unwritable path or an unknown format.  The
    configuration values are real numbers, hence finite: [int()] of a
    non-finite centre fraction, which raises, is outside the model. *)
Inductive run_exn : Type := OpenError | SaveError.

Inductive run_outcome (A : Type) : Type :=
| Done (a : A)
| Failed (e : run_exn).
Arguments Done {A} a.
Arguments Failed {A} e.

Definition apply_and_save (cfg : config) (decoded : option image)
    (save : image -> bool) : run_outcome (list (list rgb) * image) :=
  match apply_circular_gradient_hsl_curves cfg decoded with
  | Raised _ => Failed OpenError
  | Returned (pixels_rgb, processed_rgb_uint8) =>
      if save processed_rgb_uint8
      then Done (pixels_rgb, processed_rgb_uint8)
      else Failed SaveError
  end.

(** ** The specification's vocabulary *)

(** [clamp(x, lo, hi)] as the specification writes it. *)
Definition clamp_spec (x lo hi : R) : R := Rmax lo (Rmin x hi).

(** [euclideanDistance(p, center)] as the specification means it: the
    distance in the plane between the points [(px, py)] and [(cx, cy)]. *)
Definition euclidean_distance_spec (px py cx cy : R) : R :=
  sqrt ((px - cx) * (px - cx) + (py - cy) * (py - cy)).

(** The pixel [(x, y)] is within 2^30 columns and rows of the centre: no
    int64 operation of [dist_to_center] wraps around, also when the
    centre is one pixel off. *)
Definition no_overflow (center : Z * Z) (x y : Z) : Prop :=
  (Z.abs (x - fst center) <= 2 ^ 30 /\ Z.abs (y - snd center) <= 2 ^ 30)%Z.

(** Both focus centres of an image of the given size have coordinates
    of absolute value at most 2^62: they are int64 values, also when a
    centre is one pixel off. *)
Definition centres_fit_int64 (cfg : config) (width height : Z) : Prop :=
  let '(red_x, red_y) := center_px (red_center_percent cfg) width height in
  let '(blue_x, blue_y) := center_px (blue_center_percent cfg) width height in
  (Z.abs red_x <= 2 ^ 62 /\ Z.abs red_y <= 2 ^ 62 /\
   Z.abs blue_x <= 2 ^ 62 /\ Z.abs blue_y <= 2 ^ 62)%Z.

(** The quantisation the specification describes: round to the nearest
    integer, then clamp to 0..255. *)
Definition quantize_round_clamp_spec (v : R) : Z :=
  Z.max 0 (Z.min 255 (Py.floor (v + 1 / 2))).

(** The invariant of an HSL pixel. *)
Definition hsl_in_range (p : hsl) : Prop :=
  let '(h, s, l) := p in 0 <= h < 360 /\ 0 <= s <= 1 /\ 0 <= l <= 1.

Definition unit_interval (v : R) : Prop := 0 <= v <= 1.

(** The scenario of the specification's section 8: a 4x4 image, the red
    focus at pixel (0,0), the blue focus at pixel (3,3), radius 4. *)
Definition scenario_config : config := {|
  red_center_percent := (0, 0);
  blue_center_percent := (3 / 4, 3 / 4);
  gradient_radius_px := 4;
  max_hue_shift_deg := 30;
  max_saturation_adjust := 2 / 10;
  max_lightness_adjust := 1 / 10;
  red_mix_hue_deg := 0;
  blue_mix_hue_deg := 240;
  secondary_mix_factor := 1 / 2
|}.

(** The same geometry with radius 1: pixel (3,0) is then out of reach of
    both foci. *)
Definition narrow_scenario_config : config := {|
  red_center_percent := (0, 0);
  blue_center_percent := (3 / 4, 3 / 4);
  gradient_radius_px := 1;
  max_hue_shift_deg := 30;
  max_saturation_adjust := 2 / 10;
  max_lightness_adjust := 1 / 10;
  red_mix_hue_deg := 0;
  blue_mix_hue_deg := 240;
  secondary_mix_factor := 1 / 2
|}.

(** The default configuration with a negative radius, and a one-pixel
    white image. *)
Definition negative_radius_config : config := {|
  red_center_percent := (1 / 10, 9 / 10);
  blue_center_percent := (9 / 10, 1 / 10);
  gradient_radius_px := -1;
  max_hue_shift_deg := 30;
  max_saturation_adjust := 2 / 10;
  max_lightness_adjust := 1 / 10;
  red_mix_hue_deg := 0;
  blue_mix_hue_deg := 240;
  secondary_mix_factor := 1 / 2
|}.

Definition white_pixel_image : image := [[(255, 255, 255)%Z]].

(** A configuration with a positive radius, a blue target hue outside
    [0,360) and centre fractions outside [0,1]. *)
Definition out_of_range_config : config := {|
  red_center_percent := (3 / 2, 3 / 2);
  blue_center_percent := (-1 / 2, -1 / 2);
  gradient_radius_px := 1;
  max_hue_shift_deg := 30;
  max_saturation_adjust := 2 / 10;
  max_lightness_adjust := 1 / 10;
  red_mix_hue_deg := 0;
  blue_mix_hue_deg := 400;
  secondary_mix_factor := 1 / 2
|}.

(** The shape of a buffer: the length of each of its rows. *)
Definition shape {A : Type} (buf : list (list A)) : list nat :=
  map (@length A) buf.

(** A 4x4 image of one colour whose maximal channel is red (its hue, as
    [rgb_to_hsl] computes it, is above 360). *)
Definition orange_image : image :=
  let row := [(200, 100, 50); (200, 100, 50); (200, 100, 50); (200, 100, 50)]%Z in
  [row; row; row; row].

(** An 8-bit pixel. *)
Definition is_byte_pixel (p : rgb8) : Prop :=
  let '(r, g, b) := p in
  (0 <= r <= 255)%Z /\ (0 <= g <= 255)%Z /\ (0 <= b <= 255)%Z.

(** ** The colour-difference map ([src/DeltaColor.py])

    [calculate_color_differences] is called on the pair that
    [apply_circular_gradient_hsl_curves] returns.  Buffers are NumPy
    arrays, hence rectangular; they are read here as lists of rows. *)

(** The exceptions of indexing past the end of an array and of taking
    the maximum of an empty array. *)
Inductive array_exn : Type := IndexError | ValueError.

Inductive result (A : Type) : Type :=
| Ok (a : A)
| Err (e : array_exn).
Arguments Ok {A} a.
Arguments Err {A} e.

(** [scipy.spatial.distance.euclidean] on two colour triples. *)
Definition euclidean (u v : rgb) : R :=
  let '(u1, u2, u3) := u in
  let '(v1, v2, v3) := v in
  sqrt ((u1 - v1) * (u1 - v1) + (u2 - v2) * (u2 - v2) + (u3 - v3) * (u3 - v3)).

(** [buf[y, x]], when both indices are in bounds. *)
Definition pixel_at {A : Type} (buf : list (list A)) (x y : nat) : option A :=
  match nth_error buf y with
  | Some row => nth_error row x
  | None => None
  end.

(** A loop over [range(len(l))] whose body can raise: it stops at the
    first exception. *)
Fixpoint traverse_from {A B : Type} (f : nat -> A -> result B) (i : nat)
    (l : list A) : result (list B) :=
  match l with
  | [] => Ok []
  | a :: l' =>
      match f i a with
      | Err e => Err e
      | Ok b =>
          match traverse_from f (S i) l' with
          | Err e => Err e
          | Ok bs => Ok (b :: bs)
          end
      end
  end.

(** The body of the inner loop (line 21). *)
Definition difference_at (processed : image) (x y : nat) (original_px : rgb)
    : result R :=
  match pixel_at processed x y with
  | Some p => Ok (euclidean original_px (normalize p))
  | None => Err IndexError
  end.

(** The two loops (lines 19-21), over the shape of the original. *)
Definition differences_of (original : list (list rgb)) (processed : image)
    : result (list (list R)) :=
  traverse_from
    (fun y row => traverse_from (fun x o => difference_at processed x y o) 0%nat row)
    0%nat original.

(** [calculate_color_differences]: the loops, then the report line,
    whose [differences.max()] raises on an array without elements. *)
Definition calculate_color_differences (original : list (list rgb))
    (processed : image) : result (list (list R)) :=
  match differences_of original processed with
  | Err e => Err e
  | Ok differences =>
      match concat differences with
      | [] => Err ValueError
      | _ :: _ => Ok differences
      end
  end.

Definition is_unit_pixel (p : rgb) : Prop :=
  let '(r, g, b) := p in unit_interval r /\ unit_interval g /\ unit_interval b.

(** The processed buffer of a run, as a function of the input image. *)
Definition processed_of (cfg : config) (img : image) : image :=
  processed_rgb_uint8_of
    (processed_hsl_of cfg (image_width img) (image_height img)
       (pixels_hsl_of (pixels_rgb_of img))).

(** ** Truth-table weighting ([src/LDW.py])

    [apply_truth_table_positional_weighting] is called on the colour
    difference map.  The pattern is read as a list of ASCII characters.
    The optional [pixel_to_proposition_map] is never read and is left
    out. *)

(** [int(bit)] on one character: a decimal digit, or [ValueError]. *)
Definition digit_of_char (c : ascii) : option Z :=
  let n := nat_of_ascii c in
  if ((48 <=? n) && (n <=? 57))%nat then Some (Z.of_nat (n - 48)) else None.

(** [[int(bit) for bit in truth_table_pattern]]. *)
Fixpoint truth_values_of (pattern : list ascii) : result (list Z) :=
  match pattern with
  | [] => Ok []
  | c :: rest =>
      match digit_of_char c with
      | None => Err ValueError
      | Some d =>
          match truth_values_of rest with
          | Err e => Err e
          | Ok ds => Ok (d :: ds)
          end
      end
  end.

(** The loop of lines 34-37; its result is never read. *)
Fixpoint change_count_of (truth_values : list Z) : Z :=
  match truth_values with
  | a :: (b :: _) as rest =>
      ((if (b =? a)%Z then 0 else 1) + change_count_of rest)%Z
  | _ => 0%Z
  end.

(** Membership of an index in [slice(lo, hi)]. *)
Definition in_slice (lo hi i : Z) : bool := ((lo <=? i) && (i <? hi))%Z.

(** [weighted_data[slice(r0, r1), slice(c0, c1)] *= weight]. *)
Definition scale_region (r0 r1 c0 c1 : Z) (weight : Z) (data : list (list R))
    : list (list R) :=
  mapi (fun y row =>
          mapi (fun x v =>
                  if in_slice r0 r1 y && in_slice c0 c1 x
                  then v * IZR weight else v) row)
       data.

(** [weighted_data[:, slice(c0, c1)] *= weight]. *)
Definition scale_columns (c0 c1 : Z) (weight : Z) (data : list (list R))
    : list (list R) :=
  mapi (fun _ row =>
          mapi (fun x v => if in_slice c0 c1 x then v * IZR weight else v) row)
       data.

(** [truth_values[i]], for an index in range. *)
Definition truth_value (truth_values : list Z) (i : Z) : Z :=
  nth (Z.to_nat i) truth_values 0%Z.

(** The branch [arity == 2] (lines 66-81): the four quadrants in the
    order 00, 01, 10, 11. *)
Definition weight_quadrants (truth_values : list Z) (height width : Z)
    (data : list (list R)) : list (list R) :=
  let h_mid := (height / 2)%Z in
  let w_mid := (width / 2)%Z in
  let d0 := scale_region 0 h_mid 0 w_mid (truth_value truth_values 0) data in
  let d1 := scale_region 0 h_mid w_mid width (truth_value truth_values 1) d0 in
  let d2 := scale_region h_mid height 0 w_mid (truth_value truth_values 2) d1 in
  scale_region h_mid height w_mid width (truth_value truth_values 3) d2.

(** The branch [arity == 3] (lines 83-92): eight vertical strips. *)
Definition weight_strips (truth_values : list Z) (width : Z)
    (data : list (list R)) : list (list R) :=
  let strip_width := (width / 8)%Z in
  fold_left
    (fun acc i =>
       scale_columns (i * strip_width) ((i + 1) * strip_width)
                     (truth_value truth_values i) acc)
    [0; 1; 2; 3; 4; 5; 6; 7]%Z data.

(** [apply_truth_table_positional_weighting].  [math.log2] raises on 0;
    [int(math.log2(n))] is read as the integer logarithm, which gives the
    same outcome of the test [2**arity == n] and of the two tests on the
    arity.  The last report line takes the maximum of the weighted data
    and raises on an array without elements. *)
Definition apply_truth_table_positional_weighting
    (color_data_map : list (list R)) (truth_table_pattern : list ascii)
    : result (list (list R)) :=
  let height := Z.of_nat (length color_data_map) in
  let width := Z.of_nat (length (hd [] color_data_map)) in
  let weighted_data := color_data_map in
  match truth_values_of truth_table_pattern with
  | Err e => Err e
  | Ok truth_values =>
      let n := Z.of_nat (length truth_values) in
      if (n =? 0)%Z then Err ValueError
      else
        let arity := Z.log2 n in
        if negb (2 ^ arity =? n)%Z then Ok weighted_data
        else
          let _change_count := change_count_of truth_values in
          let weighted_data :=
            if (arity =? 2)%Z then
              weight_quadrants truth_values height width weighted_data
            else if (arity =? 3)%Z then
              weight_strips truth_values width weighted_data
            else weighted_data in
          match concat weighted_data with
          | [] => Err ValueError
          | _ :: _ => Ok weighted_data
          end
  end.

(** * Properties *)

(** ** Facts about the primitives *)

Lemma triple_eq {A B C : Type} (a a' : A) (b b' : B) (c c' : C) :
  a = a' -> b = b' -> c = c' -> (a, b, c) = (a', b', c').
Proof. intros -> -> ->. reflexivity. Qed.

Lemma floor_unique (x : R) (k : Z) :
  IZR k <= x < IZR k + 1 -> Py.floor x = k.
Proof.
  intros [Hlo Hhi]. unfold Py.floor. symmetry.
  apply Int_part_spec. lra.
Qed.

Lemma floor_bounds (x : R) :
  IZR (Py.floor x) <= x < IZR (Py.floor x) + 1.
Proof.
  unfold Py.floor. destruct (base_Int_part x). lra.
Qed.

Lemma floor_IZR (k : Z) : Py.floor (IZR k) = k.
Proof. apply floor_unique. lra. Qed.

Lemma div_as_mult (a b q : R) : b <> 0 -> a = b * q -> a / b = q.
Proof. intros Hb ->. field. exact Hb. Qed.

Lemma modulo_eq (a b : R) (k : Z) :
  0 < b -> 0 <= a - b * IZR k < b -> Py.modulo a b = a - b * IZR k.
Proof.
  intros Hb H. unfold Py.modulo.
  assert (Hq : b * (a / b) = a) by (field; lra).
  rewrite (floor_unique (a / b) k); [reflexivity |].
  set (q := a / b) in *. nra.
Qed.

Lemma modulo_range (a b : R) : 0 < b -> 0 <= Py.modulo a b < b.
Proof.
  intros Hb. unfold Py.modulo.
  assert (Hq : b * (a / b) = a) by (field; lra).
  pose proof (floor_bounds (a / b)) as Hf.
  set (q := a / b) in *. set (k := IZR (Py.floor q)) in *. nra.
Qed.

Lemma modulo_small (a b : R) : 0 <= a < b -> Py.modulo a b = a.
Proof.
  intros H. rewrite (modulo_eq a b 0); lra.
Qed.

Lemma Rmax_cases (a b : R) :
  (a <= b /\ Rmax a b = b) \/ (b < a /\ Rmax a b = a).
Proof.
  unfold Rmax. destruct (Rle_dec a b); [left | right]; split; lra.
Qed.

Lemma Rmin_cases (a b : R) :
  (a <= b /\ Rmin a b = a) \/ (b < a /\ Rmin a b = b).
Proof.
  unfold Rmin. destruct (Rle_dec a b); [left | right]; split; lra.
Qed.

Lemma Rabs_cases (a : R) :
  (0 <= a /\ Rabs a = a) \/ (a < 0 /\ Rabs a = - a).
Proof.
  unfold Rabs. destruct (Rcase_abs a); [right | left]; split; lra.
Qed.

(** Case analysis on every [Rmax], [Rmin] and [Rabs] of the goal and of
    the hypotheses. *)
Ltac split_on cases :=
  let H := fresh "Hc" in
  let E := fresh "Ec" in
  destruct cases as [[H E] | [H E]]; rewrite E in *; clear E.

Ltac split_minmax :=
  repeat match goal with
  | |- context [Rmax ?a ?b] => split_on (Rmax_cases a b)
  | |- context [Rmin ?a ?b] => split_on (Rmin_cases a b)
  | |- context [Rabs ?a] => split_on (Rabs_cases a)
  | _ : context [Rmax ?a ?b] |- _ => split_on (Rmax_cases a b)
  | _ : context [Rmin ?a ?b] |- _ => split_on (Rmin_cases a b)
  | _ : context [Rabs ?a] |- _ => split_on (Rabs_cases a)
  end.

Lemma clip_unit_range (x : R) : 0 <= Py.clip x 0 1 <= 1.
Proof. unfold Py.clip. split_minmax; lra. Qed.

Lemma clip_unit_id (x : R) : 0 <= x <= 1 -> Py.clip x 0 1 = x.
Proof. intros H. unfold Py.clip. split_minmax; lra. Qed.

Lemma clip_is_clamp (x lo hi : R) :
  lo <= hi -> Py.clip x lo hi = clamp_spec x lo hi.
Proof. intros H. unfold Py.clip, clamp_spec. split_minmax; lra. Qed.

Lemma int_nonneg (x : R) : 0 <= x -> Py.int x = Py.floor x.
Proof.
  intros H. unfold Py.int. destruct (Rle_dec 0 x); [reflexivity | contradiction].
Qed.

(** ** The inverse conversion, sextant by sextant *)

Ltac decide_between :=
  repeat match goal with
  | |- context [Py.between ?lo ?h ?hi] =>
      destruct (Py.between lo h hi) as [? | ?]; try lra
  end.

(** A hue [60 * (n + t)] up to whole turns, with [n] the sextant and [t]
    the position inside it, selects the [n]-th branch of [hsl_to_rgb], and
    the intermediate value [x] is [c * t] in even sextants and
    [c * (1 - t)] in odd ones. *)
Lemma hsl_to_rgb_sextant (h s l t : R) (n k : Z) :
  h = 60 * (IZR n + t) + 360 * IZR k ->
  0 <= t < 1 ->
  (0 <= n < 6)%Z ->
  hsl_to_rgb h s l =
    let c := chroma s l in
    let m := match_value s l in
    let x := if Z.even n then c * t else c * (1 - t) in
    let '(r, g, b) :=
      match n with
      | 0%Z => (c, x, 0) | 1%Z => (x, c, 0) | 2%Z => (0, c, x)
      | 3%Z => (0, x, c) | 4%Z => (x, 0, c) | _ => (c, 0, x)
      end in
    ((r + m) * 255, (g + m) * 255, (b + m) * 255).
Proof.
  intros Hh Ht Hn.
  assert (Hcases : n = 0%Z \/ n = 1%Z \/ n = 2%Z \/ n = 3%Z \/ n = 4%Z \/ n = 5%Z)
    by lia.
  unfold hsl_to_rgb. fold (chroma s l).
  assert (H360 : Py.modulo h 360 = 60 * (IZR n + t)).
  { rewrite (modulo_eq h 360 k); [lra | lra |].
    assert (0 <= IZR n <= 5) by (split; apply IZR_le; lia). lra. }
  assert (H2 : Py.modulo (h / 60) 2 = IZR (n mod 2) + t).
  { assert (Hn2 : IZR n = 2 * IZR (n / 2) + IZR (n mod 2)).
    { rewrite <- mult_IZR, <- plus_IZR. f_equal. apply Z.div_mod. lia. }
    assert (0 <= IZR (n mod 2) <= 1).
    { split; apply IZR_le; pose proof (Z.mod_pos_bound n 2); lia. }
    rewrite (modulo_eq (h / 60) 2 (n / 2 + 3 * k)); [| lra |];
      rewrite plus_IZR, mult_IZR; lra. }
  rewrite H360, H2. clear H360 H2 Hh.
  destruct Hcases as [-> | [-> | [-> | [-> | [-> | ->]]]]]; cbn [Z.even];
    change (IZR (0 mod 2)) with 0; change (IZR (1 mod 2)) with 1;
    change (IZR (2 mod 2)) with 0; change (IZR (3 mod 2)) with 1;
    change (IZR (4 mod 2)) with 0; change (IZR (5 mod 2)) with 1;
    split_minmax; try lra; decide_between; cbv zeta;
    unfold match_value; apply triple_eq; lra.
Qed.

(** ** The forward conversion *)

Lemma max3_cases (r g b : R) :
  let M := Py.max3 r g b in
  r <= M /\ g <= M /\ b <= M /\ (M = r \/ M = g \/ M = b).
Proof. unfold Py.max3. split_minmax; lra. Qed.

Lemma min3_cases (r g b : R) :
  let m := Py.min3 r g b in
  m <= r /\ m <= g /\ m <= b /\ (m = r \/ m = g \/ m = b).
Proof. unfold Py.min3. split_minmax; lra. Qed.

Lemma saturation_of_range (M m : R) :
  0 <= m -> m < M -> M <= 1 -> 0 <= saturation_of M m <= 1.
Proof.
  intros Hm HmM HM. unfold saturation_of.
  destruct (Rgt_dec ((M + m) / 2) (1 / 2)) as [Hl | Hl].
  - assert (Hd : 0 < 2 - M - m) by lra.
    split.
    + apply Rmult_le_pos; [lra | left; apply Rinv_0_lt_compat; exact Hd].
    + apply (Rmult_le_reg_r (2 - M - m)); [exact Hd |].
      unfold Rdiv. rewrite Rmult_assoc, Rinv_l by lra. lra.
  - assert (Hd : 0 < M + m) by lra.
    split.
    + apply Rmult_le_pos; [lra | left; apply Rinv_0_lt_compat; exact Hd].
    + apply (Rmult_le_reg_r (M + m)); [exact Hd |].
      unfold Rdiv. rewrite Rmult_assoc, Rinv_l by lra. lra.
Qed.

(** The chroma recovered by [hsl_to_rgb] is the spread [max - min], and
    its match value is [min]. *)
Lemma chroma_of_saturation (M m : R) :
  0 <= m -> m < M -> M <= 1 ->
  chroma (saturation_of M m) ((M + m) / 2) = M - m.
Proof.
  intros Hm HmM HM. unfold chroma, saturation_of.
  destruct (Rgt_dec ((M + m) / 2) (1 / 2)) as [Hl | Hl].
  - rewrite Rabs_pos_eq by lra. field. lra.
  - rewrite Rabs_left1 by lra. field. lra.
Qed.

Lemma match_value_of_saturation (M m : R) :
  0 <= m -> m < M -> M <= 1 ->
  match_value (saturation_of M m) ((M + m) / 2) = m.
Proof.
  intros Hm HmM HM. unfold match_value.
  rewrite chroma_of_saturation by assumption. lra.
Qed.

Lemma quotient_intro (a d : R) : d <> 0 -> a / d * d = a.
Proof. intros Hd. field. exact Hd. Qed.

(** Selects sextant [n], position [t] and [k] whole turns for the hue at
    hand, then reduces the goal to arithmetic on the channels. *)
Ltac by_sextant n t k :=
  rewrite (hsl_to_rgb_sextant _ _ _ t n k); [ | try lra | try nra | lia ].

(** In exact arithmetic the inverse conversion undoes the forward one on
    every chromatic pixel; the result is on the 0..255 scale. *)
Lemma roundtrip_exact (r g b : R) :
  unit_interval r -> unit_interval g -> unit_interval b ->
  ~ (r = g /\ g = b) ->
  roundtrip r g b = (r * 255, g * 255, b * 255).
Proof.
  unfold unit_interval. intros Hr Hg Hb Hna.
  pose proof (max3_cases r g b) as HM. pose proof (min3_cases r g b) as Hm.
  cbv zeta in HM, Hm.
  unfold roundtrip, rgb_to_hsl.
  set (M := Py.max3 r g b) in *. set (m := Py.min3 r g b) in *.
  clearbody M m.
  destruct HM as (HMr & HMg & HMb & HMc). destruct Hm as (Hmr & Hmg & Hmb & Hmc).
  destruct (Req_dec_T M m) as [E | NE].
  { exfalso. apply Hna. split; lra. }
  assert (HmM : m < M) by lra.
  assert (H0m : 0 <= m) by (destruct Hmc as [-> | [-> | ->]]; lra).
  assert (HM1 : M <= 1) by (destruct HMc as [-> | [-> | ->]]; lra).
  pose proof (chroma_of_saturation M m H0m HmM HM1) as Hc.
  pose proof (match_value_of_saturation M m H0m HmM HM1) as Hmv.
  cbv zeta.
  change (if Rgt_dec ((M + m) / 2) (1 / 2)
          then (M - m) / (2 - M - m) else (M - m) / (M + m))
    with (saturation_of M m).
  assert (Hd : M - m <> 0) by lra.
  destruct (Req_dec_T M r) as [Er | Nr].
  - pose proof (quotient_intro (g - b) (M - m) Hd) as Hq.
    set (q := (g - b) / (M - m)) in *.
    destruct (Rlt_dec g b) as [Hgb | Hgb].
    + assert (m = g) by (destruct Hmc as [? | [? | ?]]; lra).
      by_sextant 5%Z (1 + q) (-1)%Z.
      cbv zeta. cbn [Z.even]. rewrite Hc, Hmv. apply triple_eq; nra.
    + assert (m = b) by (destruct Hmc as [? | [? | ?]]; lra).
      destruct (Req_dec_T g r) as [Egr | Ngr].
      * assert (q = 1) by nra.
        by_sextant 1%Z 0 1%Z.
        cbv zeta. cbn [Z.even]. rewrite Hc, Hmv. apply triple_eq; nra.
      * by_sextant 0%Z q 1%Z.
        cbv zeta. cbn [Z.even]. rewrite Hc, Hmv. apply triple_eq; nra.
  - destruct (Req_dec_T M g) as [Eg | Ng].
    + pose proof (quotient_intro (b - r) (M - m) Hd) as Hq.
      set (q := (b - r) / (M - m)) in *.
      destruct (Rlt_dec b r) as [Hbr | Hbr].
      * assert (m = b) by (destruct Hmc as [? | [? | ?]]; lra).
        by_sextant 1%Z (1 + q) 0%Z.
        cbv zeta. cbn [Z.even]. rewrite Hc, Hmv. apply triple_eq; nra.
      * assert (m = r) by (destruct Hmc as [? | [? | ?]]; lra).
        destruct (Req_dec_T b g) as [Ebg | Nbg].
        -- assert (q = 1) by nra.
           by_sextant 3%Z 0 0%Z.
           cbv zeta. cbn [Z.even]. rewrite Hc, Hmv. apply triple_eq; nra.
        -- by_sextant 2%Z q 0%Z.
           cbv zeta. cbn [Z.even]. rewrite Hc, Hmv. apply triple_eq; nra.
    + destruct (Req_dec_T M b) as [Eb | Nb].
      * pose proof (quotient_intro (r - g) (M - m) Hd) as Hq.
        set (q := (r - g) / (M - m)) in *.
        destruct (Rlt_dec r g) as [Hrg | Hrg].
        -- assert (m = r) by (destruct Hmc as [? | [? | ?]]; lra).
           by_sextant 3%Z (1 + q) 0%Z.
           cbv zeta. cbn [Z.even]. rewrite Hc, Hmv. apply triple_eq; nra.
        -- assert (m = g) by (destruct Hmc as [? | [? | ?]]; lra).
           by_sextant 4%Z q 0%Z.
           cbv zeta. cbn [Z.even]. rewrite Hc, Hmv. apply triple_eq; nra.
      * exfalso. destruct HMc as [? | [? | ?]]; lra.
Qed.

(** ** Claims *)

Lemma byte_unit_interval (k : Z) :
  (0 <= k <= 255)%Z -> unit_interval (IZR k / 255).
Proof.
  intros [Hlo Hhi]. apply IZR_le in Hlo. apply IZR_le in Hhi.
  unfold unit_interval. lra.
Qed.




(** ** The scenario's geometry *)

Lemma int_of_IZR (x : R) (k : Z) : (0 <= k)%Z -> x = IZR k -> Py.int x = k.
Proof.
  intros Hk ->. rewrite int_nonneg by (apply IZR_le; exact Hk).
  apply floor_IZR.
Qed.

Lemma scenario_red_center :
  center_px (red_center_percent scenario_config) 4 4 = (0, 0)%Z.
Proof.
  unfold center_px, scenario_config. cbn [red_center_percent fst snd].
  rewrite (int_of_IZR (0 * 4) 0) by (lia || lra). reflexivity.
Qed.

Lemma scenario_blue_center :
  center_px (blue_center_percent scenario_config) 4 4 = (3, 3)%Z.
Proof.
  unfold center_px, scenario_config. cbn [blue_center_percent fst snd].
  rewrite (int_of_IZR (3 / 4 * 4) 3) by (lia || lra). reflexivity.
Qed.

Lemma sqrt_of_square (k : Z) (v : R) : 0 <= v -> IZR k = v * v -> sqrt (IZR k) = v.
Proof. intros Hv ->. apply sqrt_square. exact Hv. Qed.

Lemma int64_small (z : Z) : (- 2 ^ 63 <= z < 2 ^ 63)%Z -> int64 z = z.
Proof.
  intros Hz. unfold int64. rewrite Z.mod_small; lia.
Qed.

(** Within reach of the centre the int64 arithmetic is that of the
    integers. *)
Lemma dist_to_center_no_wrap (center : Z * Z) (x y : Z) :
  no_overflow center x y ->
  dist_to_center center x y
  = sqrt (IZR ((x - fst center) ^ 2 + (y - snd center) ^ 2)).
Proof.
  intros [Hx Hy]. unfold dist_to_center. cbv zeta.
  set (dx := (x - fst center)%Z) in *. set (dy := (y - snd center)%Z) in *.
  assert (H30 : (2 ^ 30 * 2 ^ 30 = 2 ^ 60)%Z) by reflexivity.
  assert (Hdx : (0 <= dx ^ 2 <= 2 ^ 60)%Z) by (rewrite Z.pow_2_r; nia).
  assert (Hdy : (0 <= dy ^ 2 <= 2 ^ 60)%Z) by (rewrite Z.pow_2_r; nia).
  assert (H60 : (2 ^ 60 + 2 ^ 60 < 2 ^ 63)%Z) by reflexivity.
  rewrite (int64_small dx) by lia. rewrite (int64_small dy) by lia.
  rewrite (int64_small (dx ^ 2)) by lia. rewrite (int64_small (dy ^ 2)) by lia.
  rewrite int64_small by lia. reflexivity.
Qed.

Lemma dist_to_center_eval (center : Z * Z) (x y : Z) (v : R) :
  no_overflow center x y -> 0 <= v ->
  IZR ((x - fst center) ^ 2 + (y - snd center) ^ 2) = v * v ->
  dist_to_center center x y = v.
Proof.
  intros Hno Hv Hsq. rewrite dist_to_center_no_wrap by exact Hno.
  apply sqrt_of_square; assumption.
Qed.

(** Settles [no_overflow] at concrete coordinates. *)
Ltac concrete_no_overflow :=
  unfold no_overflow; cbn [fst snd]; split; apply Z.leb_le; reflexivity.

(** Pixel (3,0) of the scenario is at distance 3 from both foci. *)
Lemma scenario_weights_at_3_0 :
  weight_red scenario_config 4 4 3 0 = 1 / 4 /\
  weight_blue scenario_config 4 4 3 0 = 1 / 4.
Proof.
  unfold weight_red, weight_blue.
  rewrite scenario_red_center, scenario_blue_center.
  unfold weight, weight_of_dist. cbn [gradient_radius_px scenario_config].
  rewrite (dist_to_center_eval (0, 0)%Z 3 0 3)
    by (concrete_no_overflow || (try lra; cbn; lra)).
  rewrite (dist_to_center_eval (3, 3)%Z 3 0 3)
    by (concrete_no_overflow || (try lra; cbn; lra)).
  split; rewrite clip_unit_id; lra.
Qed.

(** C2, as the code has it.  The comparison is the strict
    [red_influence > blue_influence]: whenever the two influence weights
    are equal it is false, so the target hue used for the hue shift is
    that of the blue (second) focus and the saturation/lightness sign
    is -1. *)
Theorem C2_tie_goes_to_blue (cfg : config) (red_influence blue_influence : R) :
  red_influence = blue_influence ->
  target_hue cfg red_influence blue_influence = blue_mix_hue_deg cfg /\
  sign red_influence blue_influence = -1.
Proof.
  intros ->. unfold target_hue, sign.
  destruct (Rgt_dec blue_influence blue_influence) as [Hgt | _].
  - exfalso. lra.
  - split; reflexivity.
Qed.

Lemma C2_tie_witness :
  target_hue scenario_config (1 / 4) (1 / 4) = blue_mix_hue_deg scenario_config /\
  sign (1 / 4) (1 / 4) = -1.
Proof.
  apply (C2_tie_goes_to_blue scenario_config (1 / 4) (1 / 4)). reflexivity.
Defined.

(** C2, as stated, fails: at pixel (3,0) of the 4x4 scenario the two
    weights are both 1/4, yet the target hue is not the red focus's and
    the sign is not +1. *)
Lemma C2_tie_counterexample :
  weight_red scenario_config 4 4 3 0 = weight_blue scenario_config 4 4 3 0 /\
  target_hue scenario_config (weight_red scenario_config 4 4 3 0)
                             (weight_blue scenario_config 4 4 3 0) = 240 /\
  red_mix_hue_deg scenario_config = 0 /\
  sign (weight_red scenario_config 4 4 3 0)
       (weight_blue scenario_config 4 4 3 0) = -1 /\
  ~ (target_hue scenario_config (weight_red scenario_config 4 4 3 0)
                                (weight_blue scenario_config 4 4 3 0)
       = red_mix_hue_deg scenario_config /\
     sign (weight_red scenario_config 4 4 3 0)
          (weight_blue scenario_config 4 4 3 0) = 1).
Proof.
  destruct scenario_weights_at_3_0 as [-> ->].
  unfold target_hue, sign.
  destruct (Rgt_dec (1 / 4) (1 / 4)) as [Hgt | _]; [exfalso; lra |].
  cbn [blue_mix_hue_deg red_mix_hue_deg scenario_config].
  repeat split; try reflexivity. intros [H _]. lra.
Qed.

(** ** The influence field *)

Lemma weight_of_dist_monotone (radius d1 d2 : R) :
  radius > 0 -> d1 <= d2 ->
  weight_of_dist radius d2 <= weight_of_dist radius d1.
Proof.
  intros Hr Hd. unfold weight_of_dist, Py.clip.
  assert (Hq : d1 / radius <= d2 / radius).
  { unfold Rdiv. apply Rmult_le_compat_r; [| exact Hd].
    left. apply Rinv_0_lt_compat. exact Hr. }
  split_minmax; lra.
Qed.

Lemma dist_to_center_at_center (center : Z * Z) :
  dist_to_center center (fst center) (snd center) = 0.
Proof.
  apply dist_to_center_eval; [| lra |].
  - unfold no_overflow. rewrite !Z.sub_diag. split; apply Z.leb_le; reflexivity.
  - rewrite !Z.sub_diag. cbn. lra.
Qed.

Lemma spec_distance_of_pixels (center : Z * Z) (x y : Z) :
  no_overflow center x y ->
  dist_to_center center x y
  = euclidean_distance_spec (IZR x) (IZR y)
      (IZR (fst center)) (IZR (snd center)).
Proof.
  intros Hno. rewrite dist_to_center_no_wrap by exact Hno.
  unfold euclidean_distance_spec. f_equal.
  rewrite plus_IZR, !Z.pow_2_r, !mult_IZR, !minus_IZR. reflexivity.
Qed.

(** C7, as the code has it.  For every focus with radius [R > 0] and
    every pixel within 2^30 columns and rows of the focus centre, the
    influence weight is [clamp(1 - d / R, 0, 1)] with [d] the Euclidean
    distance between the pixel and the centre; hence it is 1 at distance
    0, 0 at every distance [>= R], and it does not increase as the
    distance grows. *)
Theorem C7_weight_is_clamped_falloff (radius : R) (center : Z * Z) (x y : Z) :
  radius > 0 ->
  no_overflow center x y ->
  let d := euclidean_distance_spec (IZR x) (IZR y)
             (IZR (fst center)) (IZR (snd center)) in
  weight radius center x y = clamp_spec (1 - d / radius) 0 1 /\
  weight radius center (fst center) (snd center) = 1 /\
  (d = 0 -> weight radius center x y = 1) /\
  (d >= radius -> weight radius center x y = 0) /\
  (forall x' y' : Z,
     no_overflow center x' y' ->
     d <= euclidean_distance_spec (IZR x') (IZR y')
            (IZR (fst center)) (IZR (snd center)) ->
     weight radius center x' y' <= weight radius center x y).
Proof.
  intros Hr Hno. cbv zeta.
  rewrite <- (spec_distance_of_pixels center x y Hno).
  unfold weight.
  assert (Hone : weight_of_dist radius 0 = 1).
  { unfold weight_of_dist. unfold Rdiv. rewrite Rmult_0_l.
    rewrite clip_unit_id; lra. }
  repeat split.
  - unfold weight_of_dist. apply clip_is_clamp. lra.
  - rewrite dist_to_center_at_center. exact Hone.
  - intros ->. exact Hone.
  - intros Hfar. unfold weight_of_dist, Py.clip.
    assert (Hq : 1 <= dist_to_center center x y / radius).
    { apply (Rmult_le_reg_r radius); [exact Hr |].
      rewrite quotient_intro by lra. lra. }
    split_minmax; lra.
  - intros x' y' Hno' Hd.
    rewrite <- (spec_distance_of_pixels center x' y' Hno') in Hd.
    apply weight_of_dist_monotone; assumption.
Qed.

Lemma C7_weight_witness :
  let d := euclidean_distance_spec (IZR 3) (IZR 0)
             (IZR (fst (0, 0)%Z)) (IZR (snd (0, 0)%Z)) in
  weight 4 (0, 0)%Z 3 0 = clamp_spec (1 - d / 4) 0 1 /\
  weight 4 (0, 0)%Z (fst (0, 0)%Z) (snd (0, 0)%Z) = 1 /\
  (d = 0 -> weight 4 (0, 0)%Z 3 0 = 1) /\
  (d >= 4 -> weight 4 (0, 0)%Z 3 0 = 0) /\
  (forall x' y' : Z,
     no_overflow (0, 0)%Z x' y' ->
     d <= euclidean_distance_spec (IZR x') (IZR y')
            (IZR (fst (0, 0)%Z)) (IZR (snd (0, 0)%Z)) ->
     weight 4 (0, 0)%Z x' y' <= weight 4 (0, 0)%Z 3 0).
Proof.
  apply (C7_weight_is_clamped_falloff 4 (0, 0)%Z 3 0).
  - lra.
  - concrete_no_overflow.
Defined.

(** C7, as stated, fails far from the centre: with the centre 2^32
    columns to the right of pixel (0,0) and radius 200, the int64 square
    of the column difference wraps to 0, the computed distance is 0 and
    the weight is 1, while the Euclidean distance is 2^32, far beyond the
    radius, for which the clamp formula gives 0. *)
Lemma C7_far_centre_counterexample :
  euclidean_distance_spec (IZR 0) (IZR 0) (IZR 4294967296) (IZR 0)
    = 4294967296 /\
  dist_to_center (4294967296, 0)%Z 0 0 = 0 /\
  weight 200 (4294967296, 0)%Z 0 0 = 1 /\
  clamp_spec (1 - 4294967296 / 200) 0 1 = 0 /\
  ~ (weight 200 (4294967296, 0)%Z 0 0
     = clamp_spec
         (1 - euclidean_distance_spec (IZR 0) (IZR 0) (IZR 4294967296) (IZR 0)
              / 200) 0 1).
Proof.
  assert (Hspec : euclidean_distance_spec (IZR 0) (IZR 0) (IZR 4294967296) (IZR 0)
                  = 4294967296).
  { unfold euclidean_distance_spec.
    replace ((0 - 4294967296) * (0 - 4294967296) + (0 - 0) * (0 - 0))
      with (4294967296 * 4294967296) by ring.
    apply sqrt_square. lra. }
  assert (Hdist : dist_to_center (4294967296, 0)%Z 0 0 = 0).
  { unfold dist_to_center. cbv zeta. cbn [fst snd].
    replace (int64 (int64 (int64 (0 - 4294967296) ^ 2) + int64 (int64 (0 - 0) ^ 2)))
      with 0%Z by (vm_compute; reflexivity).
    exact sqrt_0. }
  assert (Hw : weight 200 (4294967296, 0)%Z 0 0 = 1).
  { unfold weight. rewrite Hdist. unfold weight_of_dist.
    rewrite clip_unit_id; lra. }
  assert (Hclamp : clamp_spec (1 - 4294967296 / 200) 0 1 = 0).
  { unfold clamp_spec. split_minmax; lra. }
  split; [exact Hspec |]. split; [exact Hdist |]. split; [exact Hw |].
  split; [exact Hclamp |].
  rewrite Hw, Hspec, Hclamp. lra.
Qed.

(** ** The inert parameter *)

(** C6.  For every input and configuration the result of the run is the
    same for any two values of [secondary_mix_factor]. *)
Theorem C6_secondary_mix_factor_inert (cfg : config) (v1 v2 : R)
    (decoded : option image) :
  apply_circular_gradient_hsl_curves (with_secondary_mix_factor cfg v1) decoded
  = apply_circular_gradient_hsl_curves (with_secondary_mix_factor cfg v2) decoded.
Proof.
  destruct decoded as [img |]; reflexivity.
Qed.

(** ** Ranges *)

Lemma chroma_range (s l : R) :
  unit_interval s -> unit_interval l ->
  0 <= chroma s l <= 1 - Rabs (2 * l - 1).
Proof.
  unfold unit_interval, chroma. intros Hs Hl.
  split_minmax; nra.
Qed.

(** The three channels of [hsl_to_rgb], before the scaling by 255, lie
    between the match value and the match value plus the chroma. *)
Lemma hsl_to_rgb_range (h s l : R) :
  unit_interval s -> unit_interval l ->
  let '(r, g, b) := hsl_to_rgb h s l in
  0 <= r <= 255 /\ 0 <= g <= 255 /\ 0 <= b <= 255.
Proof.
  intros Hs Hl. pose proof (chroma_range s l Hs Hl) as Hc.
  unfold hsl_to_rgb. fold (chroma s l).
  pose proof (modulo_range (h / 60) 2 ltac:(lra)) as Hf.
  set (u := Py.modulo (h / 60) 2) in *.
  assert (Hx : 0 <= chroma s l * (1 - Rabs (u - 1)) <= chroma s l).
  { split_minmax; nra. }
  set (x := chroma s l * (1 - Rabs (u - 1))) in *.
  set (c := chroma s l) in *.
  unfold unit_interval in *.
  cbv zeta. decide_between; split_minmax; repeat split; lra.
Qed.

Lemma to_uint8_in_range (v : R) :
  0 <= v <= 255 -> to_uint8 v = Py.floor v /\ (0 <= to_uint8 v <= 255)%Z.
Proof.
  intros Hv. unfold to_uint8. rewrite int_nonneg by lra.
  pose proof (floor_bounds v) as Hf.
  assert (Hlo : (0 <= Py.floor v)%Z).
  { apply Z.lt_succ_r. apply lt_IZR. rewrite succ_IZR. lra. }
  assert (Hhi : (Py.floor v <= 255)%Z).
  { apply le_IZR. lra. }
  rewrite Z.mod_small by lia. split; [reflexivity | lia].
Qed.

Lemma int_near_zero (v : R) : -1 < v < 1 -> Py.int v = 0%Z.
Proof.
  intros Hv. unfold Py.int. destruct (Rle_dec 0 v) as [Hpos | Hneg].
  - apply floor_unique. lra.
  - rewrite (floor_unique (- v) 0); [reflexivity | lra].
Qed.

(** The store of a value strictly between -1 and 256 drops its fraction
    toward zero and does not wrap around. *)
Lemma to_uint8_no_wrap (v : R) :
  -1 < v < 256 -> to_uint8 v = Py.int v /\ (0 <= Py.int v <= 255)%Z.
Proof.
  intros Hv. unfold to_uint8.
  assert (Hint : (0 <= Py.int v <= 255)%Z).
  { destruct (Rle_dec 0 v) as [Hpos | Hneg].
    - rewrite int_nonneg by exact Hpos.
      pose proof (floor_bounds v) as Hf. split.
      + apply Z.lt_succ_r. apply lt_IZR. rewrite succ_IZR. lra.
      + apply Z.lt_succ_r. apply lt_IZR. rewrite succ_IZR. lra.
    - rewrite int_near_zero by lra. lia. }
  split; [apply Z.mod_small; lia | exact Hint].
Qed.

(** C10, as the code has it.  For every [h >= 0] and [s], [l] in [0,1],
    each component returned by [hsl_to_rgb] lies strictly between -1 and
    256 (in exact arithmetic in [0, 255]; rounding moves it by less than
    1e-12), so the store into the uint8 buffer drops the fraction toward
    zero, gives a byte in 0..255 and never wraps around. *)
Theorem C10_hsl_to_rgb_store_no_wrap (h s l : R) :
  0 <= h -> unit_interval s -> unit_interval l ->
  let '(r, g, b) := hsl_to_rgb h s l in
  (-1 < r < 256 /\ -1 < g < 256 /\ -1 < b < 256) /\
  store_rgb (r, g, b) = (Py.int r, Py.int g, Py.int b) /\
  is_byte_pixel (store_rgb (r, g, b)).
Proof.
  intros _ Hs Hl. pose proof (hsl_to_rgb_range h s l Hs Hl) as H.
  destruct (hsl_to_rgb h s l) as [[r g] b].
  destruct H as (Hr & Hg & Hb).
  assert (Hr' : -1 < r < 256) by lra.
  assert (Hg' : -1 < g < 256) by lra.
  assert (Hb' : -1 < b < 256) by lra.
  destruct (to_uint8_no_wrap r Hr') as [Er Br].
  destruct (to_uint8_no_wrap g Hg') as [Eg Bg].
  destruct (to_uint8_no_wrap b Hb') as [Eb Bb].
  split; [repeat split; lra |].
  unfold store_rgb, is_byte_pixel. rewrite Er, Eg, Eb.
  split; [reflexivity | lia].
Qed.

Lemma C10_hsl_to_rgb_witness :
  let '(r, g, b) := hsl_to_rgb 0 (1 / 5) (3 / 5) in
  (-1 < r < 256 /\ -1 < g < 256 /\ -1 < b < 256) /\
  store_rgb (r, g, b) = (Py.int r, Py.int g, Py.int b) /\
  is_byte_pixel (store_rgb (r, g, b)).
Proof.
  apply (C10_hsl_to_rgb_store_no_wrap 0 (1 / 5) (3 / 5));
    unfold unit_interval; lra.
Defined.

(** C10, as stated, fails on binary64 floats: at the hue 0, saturation
    1 and lightness 0.15 the match value [l - c / 2] rounds to a negative
    number and the green and blue components are about -7.08e-15, below
    0. *)
Lemma C10_negative_component_counterexample :
  (0 <=? 0)%float = true /\
  (F64.in_range 0 1 1 && F64.in_range 0 0.15 1)%float = true /\
  F64.hsl_to_rgb 0 1 0.15
    = (0x1.3200000000001p+6, -0x1.fep-48, -0x1.fep-48)%float /\
  (-0x1.fep-48 <? 0)%float = true /\
  F64.in_range 0 (-0x1.fep-48) 255 = false.
Proof.
  repeat split; vm_compute; reflexivity.
Qed.

(** The achromatic fixed point: a gray pixel has hue 0 and saturation 0. *)
Lemma rgb_to_hsl_gray (v : R) : rgb_to_hsl v v v = (0, 0, v).
Proof.
  unfold rgb_to_hsl, Py.max3, Py.min3.
  replace (Rmax (Rmax v v) v) with v by (split_minmax; lra).
  replace (Rmin (Rmin v v) v) with v by (split_minmax; lra).
  destruct (Req_dec_T v v) as [_ | Hne]; [| contradiction].
  apply triple_eq; lra.
Qed.

(** Saturation and lightness of [rgb_to_hsl] are in [0,1] on [0,1]^3.
    (The hue is not always in [0,360): see C8.) *)
Lemma rgb_to_hsl_sl_range (r g b : R) :
  unit_interval r -> unit_interval g -> unit_interval b ->
  let '(_, s, l) := rgb_to_hsl r g b in unit_interval s /\ unit_interval l.
Proof.
  unfold unit_interval. intros Hr Hg Hb.
  pose proof (max3_cases r g b) as HM. pose proof (min3_cases r g b) as Hm.
  cbv zeta in HM, Hm. unfold rgb_to_hsl.
  set (M := Py.max3 r g b) in *. set (m := Py.min3 r g b) in *.
  clearbody M m.
  destruct HM as (HMr & HMg & HMb & HMc). destruct Hm as (Hmr & Hmg & Hmb & Hmc).
  assert (H0m : 0 <= m) by (destruct Hmc as [-> | [-> | ->]]; lra).
  assert (HM1 : M <= 1) by (destruct HMc as [-> | [-> | ->]]; lra).
  destruct (Req_dec_T M m) as [E | NE].
  - split; lra.
  - cbv zeta.
    change (if Rgt_dec ((M + m) / 2) (1 / 2)
            then (M - m) / (2 - M - m) else (M - m) / (M + m))
      with (saturation_of M m).
    pose proof (saturation_of_range M m H0m ltac:(lra) HM1).
    split; lra.
Qed.

Section Adjustment.

Variable cfg : config.

(** With both weights 0 the adjustment is the identity on every HSL
    triple that satisfies the invariant. *)
Lemma adjust_zero_weights (h s l : R) :
  0 <= h < 360 -> unit_interval s -> unit_interval l ->
  adjust cfg 0 0 (total_weight 0 0) (h, s, l) = (h, s, l).
Proof.
  unfold unit_interval. intros Hh Hs Hl.
  assert (Ht : total_weight 0 0 = 0).
  { unfold total_weight. rewrite clip_unit_id; lra. }
  unfold adjust. cbv zeta. rewrite Ht.
  apply triple_eq.
  - rewrite modulo_small; [ring | ].
    replace (h + (target_hue cfg 0 0 - h) * 0 * (max_hue_shift_deg cfg / 360))
      with h by ring. exact Hh.
  - rewrite clip_unit_id; [ring |].
    replace (s + 0 * max_saturation_adjust cfg * sign 0 0) with s by ring.
    exact Hs.
  - rewrite clip_unit_id; [ring |].
    replace (l + 0 * max_lightness_adjust cfg * sign 0 0) with l by ring.
    exact Hl.
Qed.

End Adjustment.

(** C9.  For every pixel whose two influence weights are both 0 and
    whose hue lies in [0,360), the adjustment stage leaves the HSL triple
    exactly unchanged. *)
Theorem C9_zero_weight_pixel_unchanged (cfg : config) (width height x y : Z)
    (r g b : R) :
  unit_interval r -> unit_interval g -> unit_interval b ->
  weight_red cfg width height x y = 0 ->
  weight_blue cfg width height x y = 0 ->
  (let '(h, _, _) := rgb_to_hsl r g b in 0 <= h < 360) ->
  adjust_at cfg width height x y (rgb_to_hsl r g b) = rgb_to_hsl r g b.
Proof.
  intros Hr Hg Hb Hwr Hwb Hh.
  pose proof (rgb_to_hsl_sl_range r g b Hr Hg Hb) as Hsl.
  unfold adjust_at, total_weight_influence. rewrite Hwr, Hwb.
  destruct (rgb_to_hsl r g b) as [[h s] l]. destruct Hsl as [Hs Hl].
  apply adjust_zero_weights; assumption.
Qed.

(** Evaluates the comparisons of a conversion at concrete channels. *)
Ltac decide_comparisons :=
  repeat match goal with
  | |- context [Req_dec_T ?a ?b] => destruct (Req_dec_T a b); try lra
  | |- context [Rgt_dec ?a ?b] => destruct (Rgt_dec a b); try lra
  | |- context [Rlt_dec ?a ?b] => destruct (Rlt_dec a b); try lra
  end.

Ltac eval_rgb_to_hsl :=
  unfold rgb_to_hsl, Py.max3, Py.min3; split_minmax; try lra;
  decide_comparisons; apply triple_eq; lra.

Lemma rgb_to_hsl_green : rgb_to_hsl 0 1 0 = (120, 1, 1 / 2).
Proof. eval_rgb_to_hsl. Qed.

Lemma rgb_to_hsl_red : rgb_to_hsl 1 0 0 = (360, 1, 1 / 2).
Proof. eval_rgb_to_hsl. Qed.

Lemma narrow_weights_at_3_0 :
  weight_red narrow_scenario_config 4 4 3 0 = 0 /\
  weight_blue narrow_scenario_config 4 4 3 0 = 0.
Proof.
  unfold weight_red, weight_blue.
  change (red_center_percent narrow_scenario_config)
    with (red_center_percent scenario_config).
  change (blue_center_percent narrow_scenario_config)
    with (blue_center_percent scenario_config).
  rewrite scenario_red_center, scenario_blue_center.
  unfold weight, weight_of_dist.
  cbn [gradient_radius_px narrow_scenario_config].
  rewrite (dist_to_center_eval (0, 0)%Z 3 0 3)
    by (concrete_no_overflow || (try lra; cbn; lra)).
  rewrite (dist_to_center_eval (3, 3)%Z 3 0 3)
    by (concrete_no_overflow || (try lra; cbn; lra)).
  unfold Py.clip. split; split_minmax; lra.
Qed.

Lemma C9_zero_weight_witness :
  adjust_at narrow_scenario_config 4 4 3 0 (rgb_to_hsl 0 1 0) = rgb_to_hsl 0 1 0.
Proof.
  apply (C9_zero_weight_pixel_unchanged narrow_scenario_config 4 4 3 0 0 1 0).
  - unfold unit_interval; lra.
  - unfold unit_interval; lra.
  - unfold unit_interval; lra.
  - exact (proj1 narrow_weights_at_3_0).
  - exact (proj2 narrow_weights_at_3_0).
  - rewrite rgb_to_hsl_green. lra.
Defined.

(** C8, at the failing input.  The pure red pixel (255,0,0), that is
    [(1, 0, 0)] after normalisation, is given the hue 360 by [rgb_to_hsl],
    outside [0,360): in the branch for a maximal red channel the offset 6
    is added when [g >= b] and not when [g < b]. *)
Theorem C8_rgb_to_hsl_hue_out_of_range :
  rgb_to_hsl 1 0 0 = (360, 1, 1 / 2) /\
  ~ hsl_in_range (rgb_to_hsl 1 0 0).
Proof.
  split; [exact rgb_to_hsl_red |].
  rewrite rgb_to_hsl_red. unfold hsl_in_range. intros [[_ H] _]. lra.
Qed.

(** ** The scenario at pixel (0,0) *)

Lemma sqrt_18_ge_4 : 4 <= sqrt 18.
Proof.
  rewrite <- (sqrt_square 4) at 1 by lra.
  apply sqrt_le_1_alt. lra.
Qed.

Lemma scenario_weights_at_0_0 :
  weight_red scenario_config 4 4 0 0 = 1 /\
  weight_blue scenario_config 4 4 0 0 = 0.
Proof.
  unfold weight_red, weight_blue.
  rewrite scenario_red_center, scenario_blue_center.
  unfold weight, weight_of_dist.
  cbn [gradient_radius_px scenario_config].
  rewrite (dist_to_center_eval (0, 0)%Z 0 0 0)
    by (concrete_no_overflow || (try lra; cbn; lra)).
  rewrite (dist_to_center_no_wrap (3, 3)%Z 0 0) by concrete_no_overflow.
  cbn [fst snd].
  change (IZR ((0 - 3) ^ 2 + (0 - 3) ^ 2)) with 18.
  pose proof sqrt_18_ge_4 as H18.
  unfold Py.clip. split; split_minmax; lra.
Qed.

(** Evaluates [adjust] at concrete weights and a concrete pixel. *)
Ltac config_fields :=
  cbn [red_center_percent blue_center_percent gradient_radius_px
       max_hue_shift_deg max_saturation_adjust max_lightness_adjust
       red_mix_hue_deg blue_mix_hue_deg secondary_mix_factor].

Ltac eval_adjust cfg :=
  unfold adjust, target_hue, sign, hue_mix_factor; cbv zeta;
  decide_comparisons; unfold cfg; config_fields;
  repeat match goal with
  | |- context [Py.modulo ?a 360] => rewrite (modulo_small a 360) by lra
  end;
  unfold Py.clip; split_minmax; try lra; apply triple_eq; lra.

Lemma scenario_adjust_at_0_0 :
  adjust_at scenario_config 4 4 0 0 (0, 0, 1 / 2) = (0, 1 / 5, 3 / 5).
Proof.
  unfold adjust_at, total_weight_influence.
  destruct scenario_weights_at_0_0 as [-> ->].
  replace (total_weight 1 0) with 1
    by (unfold total_weight, Py.clip; split_minmax; lra).
  eval_adjust scenario_config.
Qed.

(** C5, as the code has it.  In the scenario (4x4 image of RGB
    (0.5,0.5,0.5), red focus at pixel (0,0), blue focus at pixel (3,3),
    radius 4, hues 0 and 240, limits 30, 0.2 and 0.1), at pixel (0,0):
    the red weight is 1; the blue weight is 0, the blue focus being at
    distance sqrt 18 > 4; the clipped total is 1; the dominant focus is
    red with sign +1; the adjusted hue stays 0, the adjusted saturation
    is 0.2 and the adjusted lightness is 0.6. *)
Theorem C5_scenario_pixel_0_0 :
  rgb_to_hsl (1 / 2) (1 / 2) (1 / 2) = (0, 0, 1 / 2) /\
  weight_red scenario_config 4 4 0 0 = 1 /\
  weight_blue scenario_config 4 4 0 0 = 0 /\
  total_weight_influence scenario_config 4 4 0 0 = 1 /\
  target_hue scenario_config (weight_red scenario_config 4 4 0 0)
                             (weight_blue scenario_config 4 4 0 0)
    = red_mix_hue_deg scenario_config /\
  sign (weight_red scenario_config 4 4 0 0)
       (weight_blue scenario_config 4 4 0 0) = 1 /\
  adjust_at scenario_config 4 4 0 0 (rgb_to_hsl (1 / 2) (1 / 2) (1 / 2))
    = (0, 2 / 10, 6 / 10).
Proof.
  rewrite rgb_to_hsl_gray, scenario_adjust_at_0_0.
  unfold total_weight_influence.
  destruct scenario_weights_at_0_0 as [-> ->].
  unfold target_hue, sign, total_weight, Py.clip.
  destruct (Rgt_dec 1 0) as [_ | H]; [| exfalso; lra].
  repeat split; try reflexivity.
  - split_minmax; lra.
  - apply triple_eq; lra.
Qed.

(** C5, as stated, fails on the blue weight: it is 0 at pixel (0,0), not
    within 0.1 of 0.19. *)
Lemma C5_blue_weight_counterexample :
  weight_blue scenario_config 4 4 0 0 = 0 /\
  ~ (Rabs (weight_blue scenario_config 4 4 0 0 - 19 / 100) <= 1 / 10).
Proof.
  destruct scenario_weights_at_0_0 as [_ ->].
  split; [reflexivity |]. split_minmax; lra.
Qed.

(** ** The store into the 8-bit buffer *)

Lemma to_uint8_eval (v : R) (k : Z) :
  (0 <= k < 256)%Z -> IZR k <= v < IZR k + 1 -> to_uint8 v = k.
Proof.
  intros Hk Hv. unfold to_uint8.
  assert (0 <= IZR k) by (apply IZR_le; lia).
  rewrite int_nonneg by lra.
  rewrite (floor_unique v k Hv). apply Z.mod_small. exact Hk.
Qed.

Lemma hsl_to_rgb_scenario_pixel :
  hsl_to_rgb 0 (1 / 5) (3 / 5) = (867 / 5, 663 / 5, 663 / 5).
Proof.
  rewrite (hsl_to_rgb_sextant 0 (1 / 5) (3 / 5) 0 0%Z 0%Z) by (lra || lia).
  cbv zeta. cbn [Z.even]. unfold match_value, chroma.
  split_minmax; try lra. apply triple_eq; lra.
Qed.

(** C4, as the code has it.  A channel value is stored into the uint8
    buffer by a cast that drops its fractional part: for every value in
    [0, 256) the stored byte is the floor of the value, the greatest
    integer not above it.  Nothing is rounded to the nearest integer and
    no clamping step is applied. *)
Theorem C4_store_truncates (v : R) :
  0 <= v < 256 ->
  to_uint8 v = Py.floor v /\
  IZR (to_uint8 v) <= v < IZR (to_uint8 v) + 1.
Proof.
  intros Hv. pose proof (floor_bounds v) as Hf.
  assert (Hk : (0 <= Py.floor v < 256)%Z).
  { split.
    - apply Z.lt_succ_r. apply lt_IZR. rewrite succ_IZR. lra.
    - apply lt_IZR. lra. }
  rewrite (to_uint8_eval v (Py.floor v) Hk Hf). split; [reflexivity | exact Hf].
Qed.

Lemma C4_store_witness :
  to_uint8 (663 / 5) = Py.floor (663 / 5) /\
  IZR (to_uint8 (663 / 5)) <= 663 / 5 < IZR (to_uint8 (663 / 5)) + 1.
Proof.
  apply (C4_store_truncates (663 / 5)). lra.
Defined.

(** C4, as stated, fails: the adjusted pixel (0, 0.2, 0.6) of the
    scenario converts to the channels (173.4, 132.6, 132.6); the bytes
    stored are (173, 132, 132), while rounding 132.6 to the nearest
    integer and clamping gives 133. *)
Lemma C4_store_counterexample :
  adjust_at scenario_config 4 4 0 0 (0, 0, 1 / 2) = (0, 1 / 5, 3 / 5) /\
  hsl_to_rgb 0 (1 / 5) (3 / 5) = (867 / 5, 663 / 5, 663 / 5) /\
  store_rgb (hsl_to_rgb 0 (1 / 5) (3 / 5)) = (173, 132, 132)%Z /\
  quantize_round_clamp_spec (663 / 5) = 133%Z /\
  to_uint8 (663 / 5) <> quantize_round_clamp_spec (663 / 5).
Proof.
  assert (H132 : to_uint8 (663 / 5) = 132%Z) by (apply to_uint8_eval; lia || lra).
  assert (H173 : to_uint8 (867 / 5) = 173%Z) by (apply to_uint8_eval; lia || lra).
  assert (H133 : quantize_round_clamp_spec (663 / 5) = 133%Z).
  { unfold quantize_round_clamp_spec.
    rewrite (floor_unique (663 / 5 + 1 / 2) 133) by lra. reflexivity. }
  split; [exact scenario_adjust_at_0_0 |].
  split; [exact hsl_to_rgb_scenario_pixel |].
  rewrite hsl_to_rgb_scenario_pixel. unfold store_rgb.
  rewrite H132, H173, H133. repeat split. discriminate.
Qed.

(** ** Configuration errors *)

Lemma mapi_from_length {A B : Type} (f : Z -> A -> B) (i : Z) (l : list A) :
  length (mapi_from f i l) = length l.
Proof.
  revert i. induction l as [| a l IH]; intros i; cbn; [reflexivity |].
  rewrite IH. reflexivity.
Qed.

Lemma shape_map {A B : Type} (f : A -> B) (buf : list (list A)) :
  shape (map (map f) buf) = shape buf.
Proof.
  unfold shape. induction buf as [| row buf IH]; cbn; [reflexivity |].
  rewrite length_map, IH. reflexivity.
Qed.

Lemma shape_mapi_from {A B : Type} (f : Z -> Z -> A -> B) (i : Z)
    (buf : list (list A)) :
  shape (mapi_from (fun y row => mapi (fun x p => f x y p) row) i buf)
  = shape buf.
Proof.
  unfold shape. revert i.
  induction buf as [| row buf IH]; intros i; cbn; [reflexivity |].
  unfold mapi at 1. rewrite mapi_from_length, IH. reflexivity.
Qed.

Lemma processed_of_shape (cfg : config) (img : image) :
  shape (processed_of cfg img) = shape img.
Proof.
  unfold processed_of, processed_rgb_uint8_of, processed_hsl_of, pixels_hsl_of,
    pixels_rgb_of, mapi.
  rewrite shape_map.
  rewrite (shape_mapi_from (fun x y p =>
             adjust_at cfg (image_width img) (image_height img) x y p)).
  rewrite !shape_map. reflexivity.
Qed.

Lemma int_small (x : R) : 0 <= x < 1 -> Py.int x = 0%Z.
Proof.
  intros Hx. rewrite int_nonneg by lra. apply floor_unique. lra.
Qed.

Lemma negative_radius_centres :
  center_px (red_center_percent negative_radius_config) 1 1 = (0, 0)%Z /\
  center_px (blue_center_percent negative_radius_config) 1 1 = (0, 0)%Z.
Proof.
  unfold center_px, negative_radius_config. config_fields. cbn [fst snd].
  rewrite (int_small (1 / 10 * 1)), (int_small (9 / 10 * 1)) by lra.
  split; reflexivity.
Qed.

Lemma negative_radius_centres_fit :
  centres_fit_int64 negative_radius_config
    (image_width white_pixel_image) (image_height white_pixel_image).
Proof.
  unfold centres_fit_int64.
  change (image_width white_pixel_image) with 1%Z.
  change (image_height white_pixel_image) with 1%Z.
  destruct negative_radius_centres as [-> ->].
  repeat split; apply Z.leb_le; reflexivity.
Qed.

Lemma negative_radius_weights :
  weight_red negative_radius_config 1 1 0 0 = 1 /\
  weight_blue negative_radius_config 1 1 0 0 = 1.
Proof.
  unfold weight_red, weight_blue.
  destruct negative_radius_centres as [-> ->].
  unfold negative_radius_config. config_fields.
  unfold weight, weight_of_dist.
  rewrite (dist_to_center_eval (0, 0)%Z 0 0 0)
    by (concrete_no_overflow || (try lra; cbn; lra)).
  unfold Py.clip. split; split_minmax; lra.
Qed.

Lemma negative_radius_adjust :
  adjust_at negative_radius_config 1 1 0 0 (0, 0, 255 / 255) = (20, 0, 9 / 10).
Proof.
  unfold adjust_at, total_weight_influence.
  destruct negative_radius_weights as [-> ->].
  replace (total_weight 1 1) with 1
    by (unfold total_weight, Py.clip; split_minmax; lra).
  eval_adjust negative_radius_config.
Qed.

Lemma hsl_to_rgb_light_gray (h : R) :
  0 <= h < 60 -> hsl_to_rgb h 0 (9 / 10) = (459 / 2, 459 / 2, 459 / 2).
Proof.
  intros Hh.
  rewrite (hsl_to_rgb_sextant h 0 (9 / 10) (h / 60) 0%Z 0%Z) by (lra || lia).
  cbv zeta. cbn [Z.even]. unfold match_value, chroma.
  split_minmax; try lra; apply triple_eq; lra.
Qed.

(** The centres of [out_of_range_config] on a one-pixel image: the
    fraction 3/2 gives pixel 1, the fraction -1/2 truncates to pixel 0. *)
Lemma out_of_range_centres :
  center_px (red_center_percent out_of_range_config) 1 1 = (1, 1)%Z /\
  center_px (blue_center_percent out_of_range_config) 1 1 = (0, 0)%Z.
Proof.
  unfold center_px, out_of_range_config. config_fields. cbn [fst snd].
  rewrite (int_near_zero (-1 / 2 * 1)) by lra.
  assert (E : Py.int (3 / 2 * 1) = 1%Z).
  { rewrite int_nonneg by lra. apply floor_unique. cbn. lra. }
  rewrite E. split; reflexivity.
Qed.

Lemma out_of_range_weights :
  weight_red out_of_range_config 1 1 0 0 = 0 /\
  weight_blue out_of_range_config 1 1 0 0 = 1.
Proof.
  unfold weight_red, weight_blue.
  destruct out_of_range_centres as [-> ->].
  unfold out_of_range_config. config_fields.
  unfold weight, weight_of_dist. split.
  - rewrite dist_to_center_no_wrap by concrete_no_overflow.
    cbn [fst snd].
    assert (H1 : 1 <= sqrt (IZR ((0 - 1) ^ 2 + (0 - 1) ^ 2))).
    { rewrite <- sqrt_1 at 1. apply sqrt_le_1_alt.
      change ((0 - 1) ^ 2 + (0 - 1) ^ 2)%Z with 2%Z. lra. }
    unfold Py.clip. split_minmax; lra.
  - rewrite (dist_to_center_eval (0, 0)%Z 0 0 0)
      by (concrete_no_overflow || (try lra; cbn; lra)).
    unfold Py.clip. split_minmax; lra.
Qed.

Lemma out_of_range_adjust :
  adjust_at out_of_range_config 1 1 0 0 (0, 0, 255 / 255) = (100 / 3, 0, 9 / 10).
Proof.
  unfold adjust_at, total_weight_influence.
  destruct out_of_range_weights as [-> ->].
  replace (total_weight 0 1) with 1
    by (unfold total_weight, Py.clip; split_minmax; lra).
  eval_adjust out_of_range_config.
Qed.




(** ** The run, pixel by pixel *)

Lemma nth_error_mapi_from {A B : Type} (f : Z -> A -> B) (i : Z) (l : list A)
    (n : nat) :
  nth_error (mapi_from f i l) n
  = option_map (f (i + Z.of_nat n)%Z) (nth_error l n).
Proof.
  revert i n. induction l as [| a l IH]; intros i [| n]; cbn [mapi_from nth_error option_map].
  - reflexivity.
  - reflexivity.
  - rewrite Z.add_0_r. reflexivity.
  - rewrite IH. replace (i + 1 + Z.of_nat n)%Z with (i + Z.of_nat (S n))%Z by lia.
    reflexivity.
Qed.

(** The processed image holds, at every position of the input, the
    result of [process_pixel] on the input pixel there. *)
Lemma run_pixel (cfg : config) (img : image) (x y : nat) (row : list rgb8)
    (p : rgb8) :
  nth_error img y = Some row ->
  nth_error row x = Some p ->
  exists (processed : image) (row' : list rgb8),
    apply_circular_gradient_hsl_curves cfg (Some img)
      = Returned (pixels_rgb_of img, processed) /\
    nth_error processed y = Some row' /\
    nth_error row' x
      = Some (process_pixel cfg (image_width img) (image_height img)
                (Z.of_nat x) (Z.of_nat y) p).
Proof.
  intros Hrow Hp.
  set (w := image_width img). set (h := image_height img).
  exists (processed_rgb_uint8_of
            (processed_hsl_of cfg w h (pixels_hsl_of (pixels_rgb_of img)))).
  eexists. split; [reflexivity |].
  unfold processed_rgb_uint8_of, processed_hsl_of, pixels_hsl_of, pixels_rgb_of, mapi.
  split.
  - rewrite nth_error_map, nth_error_mapi_from, 2!nth_error_map, Hrow.
    cbn [option_map]. reflexivity.
  - rewrite nth_error_map, nth_error_mapi_from, 2!nth_error_map, Hp.
    cbn [option_map]. rewrite !Z.add_0_l.
    unfold process_pixel. destruct (normalize p) as [[r g] b].
    destruct (adjust_at cfg w h (Z.of_nat x) (Z.of_nat y) (rgb_to_hsl r g b))
      as [[h' s'] l'].
    reflexivity.
Qed.

(** * Further properties of the adjuster *)

(** ** The forward converter on the colour cube *)

Lemma quotient_bounds (a d : R) : 0 < d -> - d <= a <= d -> -1 <= a / d <= 1.
Proof.
  intros Hd Ha. pose proof (quotient_intro a d ltac:(lra)) as Hq.
  set (q := a / d) in *. nra.
Qed.

(** X3.  The hue that [rgb_to_hsl] returns always lies in [-60, 420],
    and it lies in [0,360) exactly when the pixel is gray or its red
    channel is not maximal.  Whenever red is a maximal channel of a
    chromatic pixel the hue is outside [0,360): in [360,420] for
    [g >= b] and in [-60,0) for [g < b]. *)
Theorem X3_hue_range_of_rgb_to_hsl (r g b : R) :
  let '(h, _, _) := rgb_to_hsl r g b in
  -60 <= h <= 420 /\
  (0 <= h < 360 <-> (r = g /\ g = b) \/ r < Py.max3 r g b) /\
  (~ (r = g /\ g = b) -> r = Py.max3 r g b ->
     (b <= g -> 360 <= h <= 420) /\ (g < b -> -60 <= h < 0)).
Proof.
  pose proof (max3_cases r g b) as HM. pose proof (min3_cases r g b) as Hm.
  cbv zeta in HM, Hm. unfold rgb_to_hsl.
  set (M := Py.max3 r g b) in *. set (m := Py.min3 r g b) in *.
  clearbody M m.
  destruct HM as (HMr & HMg & HMb & HMc). destruct Hm as (Hmr & Hmg & Hmb & Hmc).
  destruct (Req_dec_T M m) as [E | NE].
  { assert (Hgray : r = g /\ g = b) by (split; lra).
    split; [lra |]. split.
    - split; [intros _; left; exact Hgray | intros _; lra].
    - intros Hna. contradiction. }
  assert (Hd : 0 < M - m) by lra.
  assert (Hchrom : ~ (r = g /\ g = b)).
  { intros [E1 E2]. destruct HMc as [? | [? | ?]], Hmc as [? | [? | ?]]; lra. }
  cbv zeta.
  destruct (Req_dec_T M r) as [Er | Nr].
  - pose proof (quotient_bounds (g - b) (M - m) Hd ltac:(lra)) as Hqb.
    pose proof (quotient_intro (g - b) (M - m) ltac:(lra)) as Hq.
    set (q := (g - b) / (M - m)) in *.
    destruct (Rlt_dec g b) as [Hgb | Hgb].
    + assert (q < 0) by nra.
      split; [lra |]. split.
      * split; [intros [H0 _]; lra | intros [Hg' | Hlt]; [contradiction | lra]].
      * intros _ _. split; intros; lra.
    + assert (0 <= q) by nra.
      split; [lra |]. split.
      * split; [intros [_ H360]; lra | intros [Hg' | Hlt]; [contradiction | lra]].
      * intros _ _. split; intros; lra.
  - assert (Hr : r < M) by lra.
    destruct (Req_dec_T M g) as [Eg | Ng].
    + pose proof (quotient_bounds (b - r) (M - m) Hd ltac:(lra)) as Hqb.
      set (q := (b - r) / (M - m)) in *.
      split; [lra |]. split.
      * split; [intros _; right; exact Hr | intros _; lra].
      * intros _ Er. lra.
    + destruct (Req_dec_T M b) as [Eb | Nb].
      * pose proof (quotient_bounds (r - g) (M - m) Hd ltac:(lra)) as Hqb.
        set (q := (r - g) / (M - m)) in *.
        split; [lra |]. split.
        -- split; [intros _; right; exact Hr | intros _; lra].
        -- intros _ Er. lra.
      * exfalso. destruct HMc as [? | [? | ?]]; lra.
Qed.

Lemma saturation_of_pos (M m : R) :
  0 <= m -> m < M -> M <= 1 -> 0 < saturation_of M m.
Proof.
  intros Hm HmM HM. unfold saturation_of.
  destruct (Rgt_dec ((M + m) / 2) (1 / 2)) as [Hl | Hl].
  - apply Rdiv_lt_0_compat; lra.
  - apply Rdiv_lt_0_compat; lra.
Qed.

(** X4.  On [0,1]^3 the saturation and the lightness returned by
    [rgb_to_hsl] are in [0,1], the lightness is the mean of the largest
    and the smallest channel, and the saturation is 0 exactly for gray
    pixels. *)
Theorem X4_saturation_and_lightness (r g b : R) :
  unit_interval r -> unit_interval g -> unit_interval b ->
  let '(_, s, l) := rgb_to_hsl r g b in
  unit_interval s /\ unit_interval l /\
  l = (Py.max3 r g b + Py.min3 r g b) / 2 /\
  (s = 0 <-> r = g /\ g = b).
Proof.
  intros Hr Hg Hb.
  pose proof (rgb_to_hsl_sl_range r g b Hr Hg Hb) as Hrange.
  unfold unit_interval in Hr, Hg, Hb.
  pose proof (max3_cases r g b) as HM. pose proof (min3_cases r g b) as Hm.
  cbv zeta in HM, Hm. unfold rgb_to_hsl in *.
  set (M := Py.max3 r g b) in *. set (m := Py.min3 r g b) in *.
  clearbody M m.
  destruct HM as (HMr & HMg & HMb & HMc). destruct Hm as (Hmr & Hmg & Hmb & Hmc).
  assert (H0m : 0 <= m) by (destruct Hmc as [-> | [-> | ->]]; lra).
  assert (HM1 : M <= 1) by (destruct HMc as [-> | [-> | ->]]; lra).
  destruct (Req_dec_T M m) as [E | NE].
  - destruct Hrange as [Hs Hl].
    split; [exact Hs |]. split; [exact Hl |]. split; [reflexivity |].
    split; [intros _; split; lra | intros _; reflexivity].
  - cbv zeta in *. destruct Hrange as [Hs Hl].
    split; [exact Hs |]. split; [exact Hl |]. split; [reflexivity |].
    change (if Rgt_dec ((M + m) / 2) (1 / 2)
            then (M - m) / (2 - M - m) else (M - m) / (M + m))
      with (saturation_of M m).
    pose proof (saturation_of_pos M m H0m ltac:(lra) HM1) as Hpos.
    split; [intros H0; lra |].
    intros [E1 E2]. exfalso.
    destruct HMc as [? | [? | ?]], Hmc as [? | [? | ?]]; lra.
Qed.

Lemma X4_saturation_witness :
  let '(_, s, l) := rgb_to_hsl 0 1 0 in
  unit_interval s /\ unit_interval l /\
  l = (Py.max3 0 1 0 + Py.min3 0 1 0) / 2 /\
  (s = 0 <-> 0 = 1 /\ 1 = 0).
Proof.
  apply (X4_saturation_and_lightness 0 1 0); unfold unit_interval; lra.
Defined.

(** ** The influence weights of a pixel *)

(** X6.  For a non-zero radius, also a negative one, and a pixel within
    2^30 columns and rows of both centres, each influence weight is in
    [0,1]; the composite weight is in [0,1], it is at least each of the
    two weights, and it is 0 exactly when both weights are 0. *)
Theorem X6_weights_bounded (radius : R) (red_center blue_center : Z * Z)
    (x y : Z) :
  radius <> 0 ->
  no_overflow red_center x y -> no_overflow blue_center x y ->
  let wr := weight radius red_center x y in
  let wb := weight radius blue_center x y in
  let total := total_weight wr wb in
  0 <= wr <= 1 /\ 0 <= wb <= 1 /\ 0 <= total <= 1 /\
  wr <= total /\ wb <= total /\
  (total = 0 <-> wr = 0 /\ wb = 0).
Proof.
  intros _ _ _. cbv zeta. unfold total_weight.
  assert (Hr : 0 <= weight radius red_center x y <= 1)
    by (unfold weight, weight_of_dist; apply clip_unit_range).
  assert (Hb : 0 <= weight radius blue_center x y <= 1)
    by (unfold weight, weight_of_dist; apply clip_unit_range).
  set (wr := weight radius red_center x y) in *.
  set (wb := weight radius blue_center x y) in *.
  unfold Py.clip. split_minmax; repeat split; try lra.
Qed.

Lemma X6_weights_witness :
  let wr := weight 4 (0, 0)%Z 3 0 in
  let wb := weight 4 (3, 3)%Z 3 0 in
  let total := total_weight wr wb in
  0 <= wr <= 1 /\ 0 <= wb <= 1 /\ 0 <= total <= 1 /\
  wr <= total /\ wb <= total /\
  (total = 0 <-> wr = 0 /\ wb = 0).
Proof.
  apply (X6_weights_bounded 4 (0, 0)%Z (3, 3)%Z 3 0).
  - lra.
  - concrete_no_overflow.
  - concrete_no_overflow.
Defined.

Lemma dist_to_center_nonneg (center : Z * Z) (x y : Z) :
  0 <= dist_to_center center x y.
Proof. unfold dist_to_center. cbv zeta. apply sqrt_pos. Qed.

(** X7.  A negative radius is accepted and saturates the field: every
    pixel within 2^30 columns and rows of both centres, wherever the
    centres are, gets both weights and the composite weight equal to 1, so
    the tie rule applies there: the target hue is the blue one and the
    sign is -1. *)
Theorem X7_negative_radius_saturates (cfg : config)
    (red_center blue_center : Z * Z) (x y : Z) :
  gradient_radius_px cfg < 0 ->
  no_overflow red_center x y -> no_overflow blue_center x y ->
  let wr := weight (gradient_radius_px cfg) red_center x y in
  let wb := weight (gradient_radius_px cfg) blue_center x y in
  wr = 1 /\ wb = 1 /\ total_weight wr wb = 1 /\
  target_hue cfg wr wb = blue_mix_hue_deg cfg /\
  sign wr wb = -1.
Proof.
  intros Hneg _ _. cbv zeta.
  assert (Hw : forall center, weight (gradient_radius_px cfg) center x y = 1).
  { intros center. unfold weight, weight_of_dist.
    pose proof (dist_to_center_nonneg center x y) as Hd.
    set (d := dist_to_center center x y) in *.
    assert (Hq : d / gradient_radius_px cfg <= 0).
    { pose proof (quotient_intro d (gradient_radius_px cfg) ltac:(lra)) as Hq.
      set (q := d / gradient_radius_px cfg) in *. nra. }
    unfold Py.clip. split_minmax; lra. }
  rewrite !Hw.
  unfold total_weight, target_hue, sign, Py.clip.
  destruct (Rgt_dec 1 1) as [Hgt | _]; [exfalso; lra |].
  repeat split; try reflexivity. split_minmax; lra.
Qed.

Lemma X7_negative_radius_witness :
  let wr := weight (gradient_radius_px negative_radius_config) (0, 3)%Z 2 1 in
  let wb := weight (gradient_radius_px negative_radius_config) (3, 0)%Z 2 1 in
  wr = 1 /\ wb = 1 /\ total_weight wr wb = 1 /\
  target_hue negative_radius_config wr wb
    = blue_mix_hue_deg negative_radius_config /\
  sign wr wb = -1.
Proof.
  apply (X7_negative_radius_saturates negative_radius_config
           (0, 3)%Z (3, 0)%Z 2 1).
  - unfold negative_radius_config. cbn [gradient_radius_px]. lra.
  - concrete_no_overflow.
  - concrete_no_overflow.
Defined.

(** ** Which focus dominates, and which way a pixel moves *)

Lemma sign_values (wr wb : R) :
  (wr > wb /\ sign wr wb = 1) \/ (wr <= wb /\ sign wr wb = -1).
Proof.
  unfold sign. destruct (Rgt_dec wr wb) as [H | H]; [left | right]; split; lra.
Qed.

Lemma weight_of_dist_gt_iff (radius d1 d2 : R) :
  radius > 0 -> 0 <= d1 -> 0 <= d2 ->
  (weight_of_dist radius d1 > weight_of_dist radius d2
   <-> d1 < d2 /\ d1 < radius).
Proof.
  intros Hr H1 H2. unfold weight_of_dist, Py.clip.
  pose proof (quotient_intro d1 radius ltac:(lra)) as Hq1.
  pose proof (quotient_intro d2 radius ltac:(lra)) as Hq2.
  set (q1 := d1 / radius) in *. set (q2 := d2 / radius) in *.
  assert (H12 : q1 < q2 <-> d1 < d2) by (split; intros; nra).
  assert (H1r : q1 < 1 <-> d1 < radius) by (split; intros; nra).
  rewrite <- H12, <- H1r. clear H12 H1r.
  assert (0 <= q1) by nra. assert (0 <= q2) by nra.
  split_minmax; split; intros; try lra; split; lra.
Qed.

(** X8.  For a positive radius and a pixel within 2^30 columns and rows
    of both centres, with [dr] and [db] the Euclidean distances from the
    pixel to the red and to the blue centre: a pixel that is not strictly
    nearer to the red centre than to the blue one, or that is at distance
    [>= radius] from the red centre, is handled as blue (sign -1, blue
    target hue), also when it is out of reach of both foci; a pixel within
    half the radius of the red centre and out of reach of the blue focus
    is handled as red (sign +1, red target hue). *)
Theorem X8_dominant_focus_by_distance (cfg : config)
    (red_center blue_center : Z * Z) (x y : Z) :
  gradient_radius_px cfg > 0 ->
  no_overflow red_center x y -> no_overflow blue_center x y ->
  let dr := euclidean_distance_spec (IZR x) (IZR y)
              (IZR (fst red_center)) (IZR (snd red_center)) in
  let db := euclidean_distance_spec (IZR x) (IZR y)
              (IZR (fst blue_center)) (IZR (snd blue_center)) in
  let wr := weight (gradient_radius_px cfg) red_center x y in
  let wb := weight (gradient_radius_px cfg) blue_center x y in
  (~ (dr < db /\ dr < gradient_radius_px cfg) ->
     sign wr wb = -1 /\ target_hue cfg wr wb = blue_mix_hue_deg cfg) /\
  (2 * dr <= gradient_radius_px cfg -> gradient_radius_px cfg <= db ->
     sign wr wb = 1 /\ target_hue cfg wr wb = red_mix_hue_deg cfg).
Proof.
  intros Hr Hnr Hnb. cbv zeta.
  rewrite <- (spec_distance_of_pixels red_center x y Hnr).
  rewrite <- (spec_distance_of_pixels blue_center x y Hnb).
  pose proof (weight_of_dist_gt_iff (gradient_radius_px cfg)
                (dist_to_center red_center x y)
                (dist_to_center blue_center x y)
                Hr (dist_to_center_nonneg _ x y) (dist_to_center_nonneg _ x y))
    as Hiff.
  fold (weight (gradient_radius_px cfg) red_center x y) in Hiff.
  fold (weight (gradient_radius_px cfg) blue_center x y) in Hiff.
  unfold sign, target_hue.
  destruct (Rgt_dec (weight (gradient_radius_px cfg) red_center x y)
                    (weight (gradient_radius_px cfg) blue_center x y))
    as [Hgt | Hle].
  - split; [| intros _ _; split; reflexivity].
    intros Hn. exfalso. apply Hn. apply Hiff. exact Hgt.
  - split; [intros _; split; reflexivity |].
    intros Hnear Hfar. exfalso. apply Hle. apply Hiff. split; lra.
Qed.

Lemma X8_dominant_focus_witness :
  let dr := euclidean_distance_spec (IZR 1) (IZR 0)
              (IZR (fst (0, 0)%Z)) (IZR (snd (0, 0)%Z)) in
  let db := euclidean_distance_spec (IZR 1) (IZR 0)
              (IZR (fst (6, 0)%Z)) (IZR (snd (6, 0)%Z)) in
  let wr := weight (gradient_radius_px scenario_config) (0, 0)%Z 1 0 in
  let wb := weight (gradient_radius_px scenario_config) (6, 0)%Z 1 0 in
  (~ (dr < db /\ dr < gradient_radius_px scenario_config) ->
     sign wr wb = -1 /\
     target_hue scenario_config wr wb = blue_mix_hue_deg scenario_config) /\
  (2 * dr <= gradient_radius_px scenario_config ->
   gradient_radius_px scenario_config <= db ->
     sign wr wb = 1 /\
     target_hue scenario_config wr wb = red_mix_hue_deg scenario_config).
Proof.
  apply (X8_dominant_focus_by_distance scenario_config (0, 0)%Z (6, 0)%Z 1 0).
  - unfold scenario_config. cbn [gradient_radius_px]. lra.
  - concrete_no_overflow.
  - concrete_no_overflow.
Defined.

Lemma scaled_step (t m : R) : 0 <= t <= 1 -> 0 <= m -> 0 <= t * m <= m.
Proof. intros Ht Hm. nra. Qed.

(** X9.  With a composite weight in [0,1], non-negative limits and
    saturation and lightness in [0,1], the adjusted saturation and
    lightness are in [0,1]; neither goes down where the red weight is the
    larger one, neither goes up everywhere else, and both are unchanged
    where the composite weight is 0. *)
Theorem X9_saturation_lightness_direction (cfg : config)
    (red_influence blue_influence total h s l : R) :
  unit_interval s -> unit_interval l -> 0 <= total <= 1 ->
  0 <= max_saturation_adjust cfg -> 0 <= max_lightness_adjust cfg ->
  let '(_, s', l') := adjust cfg red_influence blue_influence total (h, s, l) in
  unit_interval s' /\ unit_interval l' /\
  (red_influence > blue_influence -> s <= s' /\ l <= l') /\
  (red_influence <= blue_influence -> s' <= s /\ l' <= l) /\
  (total = 0 -> s' = s /\ l' = l).
Proof.
  unfold unit_interval. intros Hs Hl Ht Hms Hml.
  unfold adjust. cbv zeta.
  pose proof (scaled_step total _ Ht Hms) as Hsat.
  pose proof (scaled_step total _ Ht Hml) as Hlig.
  assert (Hs0 : total = 0 -> total * max_saturation_adjust cfg = 0)
    by (intros ->; ring).
  assert (Hl0 : total = 0 -> total * max_lightness_adjust cfg = 0)
    by (intros ->; ring).
  set (ds := total * max_saturation_adjust cfg) in *.
  set (dl := total * max_lightness_adjust cfg) in *.
  destruct (sign_values red_influence blue_influence)
    as [[Hcmp ->] | [Hcmp ->]];
    unfold Py.clip; split_minmax; repeat split; intros;
    try (pose proof (Hs0 ltac:(assumption)));
    try (pose proof (Hl0 ltac:(assumption))); lra.
Qed.

Lemma X9_direction_witness :
  let '(_, s', l') := adjust scenario_config (1 / 4) 0 (1 / 4) (30, 1 / 2, 1 / 2) in
  unit_interval s' /\ unit_interval l' /\
  (1 / 4 > 0 -> 1 / 2 <= s' /\ 1 / 2 <= l') /\
  (1 / 4 <= 0 -> s' <= 1 / 2 /\ l' <= 1 / 2) /\
  (1 / 4 = 0 -> s' = 1 / 2 /\ l' = 1 / 2).
Proof.
  apply (X9_saturation_lightness_direction scenario_config
           (1 / 4) 0 (1 / 4) 30 (1 / 2) (1 / 2));
    unfold unit_interval, scenario_config;
    cbn [max_saturation_adjust max_lightness_adjust]; lra.
Defined.

Lemma convex_step (a t lam : R) :
  0 <= lam <= 1 -> Rmin a t <= a + (t - a) * lam <= Rmax a t.
Proof.
  intros Hlam. split_minmax; nra.
Qed.

(** X10.  When the pixel's hue and both target hues are in [0,360),
    [max_hue_shift_deg] is in [0,180] and the composite weight is in
    [0,1], the adjusted hue lies between the original hue and the target
    hue of the dominant focus: the hue moves toward the target, never past
    it, and without wrap-around, so it stays in [0,360).  It is the
    original hue where the composite weight is 0 and when
    [max_hue_shift_deg] is 0. *)
Theorem X10_hue_moves_toward_target (cfg : config)
    (red_influence blue_influence total h s l : R) :
  0 <= h < 360 ->
  0 <= red_mix_hue_deg cfg < 360 -> 0 <= blue_mix_hue_deg cfg < 360 ->
  0 <= max_hue_shift_deg cfg <= 180 ->
  0 <= total <= 1 ->
  let target := target_hue cfg red_influence blue_influence in
  let '(h', _, _) := adjust cfg red_influence blue_influence total (h, s, l) in
  Rmin h target <= h' <= Rmax h target /\
  0 <= h' < 360 /\
  (total = 0 -> h' = h) /\
  (max_hue_shift_deg cfg = 0 -> h' = h).
Proof.
  intros Hh Hred Hblue Hmax Ht. cbv zeta.
  unfold adjust. cbv zeta.
  assert (Htarget : 0 <= target_hue cfg red_influence blue_influence < 360).
  { unfold target_hue. destruct (Rgt_dec _ _); assumption. }
  set (target := target_hue cfg red_influence blue_influence) in *.
  set (k := max_hue_shift_deg cfg / 360).
  assert (Hk : 0 <= k <= 1) by (unfold k; lra).
  assert (Hk0 : max_hue_shift_deg cfg = 0 -> k = 0) by (unfold k; lra).
  assert (Hlam : 0 <= total * k <= 1) by nra.
  pose proof (convex_step h target (total * k) Hlam) as Hbetween.
  replace (h + (target - h) * total * k)
    with (h + (target - h) * (total * k)) by ring.
  assert (Hz : total * k = 0 -> h + (target - h) * (total * k) = h)
    by (intros ->; ring).
  set (v := h + (target - h) * (total * k)) in *.
  assert (Hv : 0 <= v < 360) by (revert Hbetween; split_minmax; lra).
  rewrite (modulo_small v 360 Hv).
  split; [exact Hbetween |]. split; [exact Hv |].
  split.
  - intros E. apply Hz. rewrite E. ring.
  - intros E. apply Hz. rewrite (Hk0 E). ring.
Qed.

Lemma X10_hue_witness :
  let target := target_hue scenario_config (1 / 4) 0 in
  let '(h', _, _) := adjust scenario_config (1 / 4) 0 (1 / 4) (120, 1, 1 / 2) in
  Rmin 120 target <= h' <= Rmax 120 target /\
  0 <= h' < 360 /\
  (1 / 4 = 0 -> h' = 120) /\
  (max_hue_shift_deg scenario_config = 0 -> h' = 120).
Proof.
  apply (X10_hue_moves_toward_target scenario_config (1 / 4) 0 (1 / 4)
           120 1 (1 / 2));
    unfold scenario_config;
    cbn [red_mix_hue_deg blue_mix_hue_deg max_hue_shift_deg]; lra.
Defined.

(** ** Where the focus centres fall *)

Lemma int_of_fraction (f : R) (n : Z) :
  unit_interval f -> (0 <= n)%Z ->
  (0 <= Py.int (f * IZR n) <= n)%Z /\
  (f < 1 -> (0 < n)%Z -> (Py.int (f * IZR n) < n)%Z) /\
  (f = 1 -> Py.int (f * IZR n) = n).
Proof.
  unfold unit_interval. intros Hf Hn.
  assert (HnR : 0 <= IZR n) by (apply IZR_le; exact Hn).
  assert (Hprod : 0 <= f * IZR n <= IZR n) by nra.
  rewrite int_nonneg by lra.
  pose proof (floor_bounds (f * IZR n)) as Hfl.
  set (k := Py.floor (f * IZR n)) in *.
  split; [split |]; [| | split].
  - apply Z.lt_succ_r. apply lt_IZR. rewrite succ_IZR. lra.
  - apply le_IZR. lra.
  - intros Hlt Hpos. apply lt_IZR.
    assert (0 < IZR n) by (apply IZR_lt; exact Hpos).
    assert (f * IZR n < IZR n) by nra. lra.
  - intros ->. subst k. rewrite Rmult_1_l. apply floor_IZR.
Qed.

(** X12.  For centre fractions in [0,1] and an image of non-negative
    size, the centre of a focus has its column in [0, width] and its row
    in [0, height].  It is a pixel of the image when the fraction is
    below 1; the fraction 1 puts it one past the last column or row. *)
Theorem X12_center_px_bounds (percent : R * R) (width height : Z) :
  unit_interval (fst percent) -> unit_interval (snd percent) ->
  (0 <= width)%Z -> (0 <= height)%Z ->
  let '(cx, cy) := center_px percent width height in
  (0 <= cx <= width)%Z /\ (0 <= cy <= height)%Z /\
  (fst percent < 1 -> (0 < width)%Z -> (cx < width)%Z) /\
  (snd percent < 1 -> (0 < height)%Z -> (cy < height)%Z) /\
  (fst percent = 1 -> cx = width) /\
  (snd percent = 1 -> cy = height).
Proof.
  intros Hx Hy Hw Hh. unfold center_px.
  destruct (int_of_fraction (fst percent) width Hx Hw) as (Hx1 & Hx2 & Hx3).
  destruct (int_of_fraction (snd percent) height Hy Hh) as (Hy1 & Hy2 & Hy3).
  repeat split; try apply Hx1; try apply Hy1; assumption.
Qed.

Lemma X12_center_px_witness :
  let '(cx, cy) := center_px (1 / 10, 9 / 10) 800 600 in
  (0 <= cx <= 800)%Z /\ (0 <= cy <= 600)%Z /\
  (fst (1 / 10, 9 / 10) < 1 -> (0 < 800)%Z -> (cx < 800)%Z) /\
  (snd (1 / 10, 9 / 10) < 1 -> (0 < 600)%Z -> (cy < 600)%Z) /\
  (fst (1 / 10, 9 / 10) = 1 -> cx = 800%Z) /\
  (snd (1 / 10, 9 / 10) = 1 -> cy = 600%Z).
Proof.
  apply (X12_center_px_bounds (1 / 10, 9 / 10) 800 600);
    unfold unit_interval; cbn [fst snd]; lra || lia.
Defined.

(** * The colour-difference map *)

(** ** Loops that can raise *)

Lemma traverse_from_ok {A B : Type} (f : nat -> A -> result B) (l : list A) :
  forall (i : nat) (bs : list B),
    traverse_from f i l = Ok bs ->
    length bs = length l /\
    forall (n : nat) (a : A),
      nth_error l n = Some a ->
      exists b : B, f (i + n)%nat a = Ok b /\ nth_error bs n = Some b.
Proof.
  induction l as [| a0 l IH]; intros i bs H; cbn [traverse_from] in H.
  - injection H as <-. split; [reflexivity |].
    intros n a Hn. destruct n; discriminate Hn.
  - destruct (f i a0) as [b0 | e] eqn:Hf; [| discriminate H].
    destruct (traverse_from f (S i) l) as [bs' | e] eqn:Ht; [| discriminate H].
    injection H as <-. destruct (IH (S i) bs' Ht) as [Hlen Hnth].
    split; [cbn; rewrite Hlen; reflexivity |].
    intros [| n] a Hn; cbn [nth_error] in *.
    + injection Hn as <-. exists b0. rewrite Nat.add_0_r. split; [exact Hf | reflexivity].
    + destruct (Hnth n a Hn) as (b & Hb & Hbs). exists b.
      rewrite Nat.add_succ_r. split; assumption.
Qed.

Lemma traverse_from_total {A B : Type} (f : nat -> A -> result B) (l : list A) :
  forall i : nat,
    (forall (n : nat) (a : A),
       nth_error l n = Some a -> exists b : B, f (i + n)%nat a = Ok b) ->
    exists bs : list B, traverse_from f i l = Ok bs.
Proof.
  induction l as [| a0 l IH]; intros i Hall; cbn [traverse_from].
  - exists []. reflexivity.
  - destruct (Hall 0%nat a0 eq_refl) as (b0 & Hb0).
    rewrite Nat.add_0_r in Hb0. rewrite Hb0.
    destruct (IH (S i)) as (bs & Hbs).
    { intros n a Hn. specialize (Hall (S n) a Hn).
      rewrite Nat.add_succ_r in Hall. exact Hall. }
    rewrite Hbs. exists (b0 :: bs). reflexivity.
Qed.

Lemma traverse_from_raises {A B : Type} (f : nat -> A -> result B)
    (l : list A) (err : array_exn) :
  forall i : nat,
    (forall (n : nat) (a : A) (e : array_exn), f n a = Err e -> e = err) ->
    (exists (n : nat) (a : A) (e : array_exn),
       nth_error l n = Some a /\ f (i + n)%nat a = Err e) ->
    traverse_from f i l = Err err.
Proof.
  induction l as [| a0 l IH]; intros i Honly (n & a & e & Hn & He).
  - destruct n; discriminate Hn.
  - cbn [traverse_from].
    destruct (f i a0) as [b0 | e0] eqn:Hf.
    + destruct n as [| n]; cbn [nth_error] in Hn.
      * injection Hn as <-. rewrite Nat.add_0_r in He. congruence.
      * rewrite (IH (S i) Honly); [reflexivity |].
        exists n, a, e. rewrite Nat.add_succ_r in He. split; assumption.
    + f_equal. exact (Honly i a0 e0 Hf).
Qed.

Lemma difference_at_only_index_error (processed : image) (x y : nat)
    (o : rgb) (e : array_exn) :
  difference_at processed x y o = Err e -> e = IndexError.
Proof.
  unfold difference_at. destruct (pixel_at processed x y); intros H.
  - discriminate H.
  - injection H as <-. reflexivity.
Qed.

Lemma shape_of_rows {A B : Type} (src : list (list A)) (dst : list (list B)) :
  length dst = length src ->
  (forall (n : nat) (row : list A),
     nth_error src n = Some row ->
     exists row' : list B,
       nth_error dst n = Some row' /\ length row' = length row) ->
  shape dst = shape src.
Proof.
  unfold shape. revert dst.
  induction src as [| r src IH]; intros [| d dst] Hlen Hrows;
    try discriminate Hlen; [reflexivity |].
  cbn [map]. destruct (Hrows 0%nat r eq_refl) as (row' & Hrow' & Hl).
  cbn in Hrow'. injection Hrow' as <-. rewrite Hl. f_equal.
  apply IH.
  - cbn in Hlen. lia.
  - intros n row Hn. exact (Hrows (S n) row Hn).
Qed.

(** What a successful call of the two loops has computed. *)
Lemma differences_of_ok (original : list (list rgb)) (processed : image)
    (differences : list (list R)) :
  differences_of original processed = Ok differences ->
  shape differences = shape original /\
  forall (x y : nat) (o : rgb),
    pixel_at original x y = Some o ->
    exists p : rgb8,
      pixel_at processed x y = Some p /\
      pixel_at differences x y = Some (euclidean o (normalize p)).
Proof.
  intros H. unfold differences_of in H.
  destruct (traverse_from_ok _ _ _ _ H) as [Hlen Hrows].
  split.
  - apply shape_of_rows; [exact Hlen |].
    intros n row Hn. destruct (Hrows n row Hn) as (row' & Hrow' & Hnth).
    exists row'. split; [exact Hnth |].
    exact (proj1 (traverse_from_ok _ _ _ _ Hrow')).
  - intros x y o Ho. unfold pixel_at in Ho.
    destruct (nth_error original y) as [row |] eqn:Hrow; [| discriminate Ho].
    destruct (Hrows y row Hrow) as (row' & Hrow' & Hnth).
    destruct (traverse_from_ok _ _ _ _ Hrow') as [_ Hcols].
    destruct (Hcols x o Ho) as (d & Hd & Hdx).
    cbn [Nat.add] in Hd. unfold difference_at in Hd.
    destruct (pixel_at processed x y) as [p |] eqn:Hp; [| discriminate Hd].
    injection Hd as <-. exists p. split; [reflexivity |].
    unfold pixel_at. rewrite Hnth. exact Hdx.
Qed.

(** ** Lookups in buffers *)

Lemma pixel_at_map {A B : Type} (f : A -> B) (buf : list (list A)) (x y : nat) :
  pixel_at (map (map f) buf) x y = option_map f (pixel_at buf x y).
Proof.
  unfold pixel_at. rewrite nth_error_map.
  destruct (nth_error buf y) as [row |]; cbn [option_map]; [| reflexivity].
  apply nth_error_map.
Qed.

Lemma pixel_at_Forall {A : Type} (P : A -> Prop) (buf : list (list A))
    (x y : nat) (a : A) :
  Forall (Forall P) buf -> pixel_at buf x y = Some a -> P a.
Proof.
  intros Hall Ha. unfold pixel_at in Ha.
  destruct (nth_error buf y) as [row |] eqn:Hrow; [| discriminate Ha].
  apply nth_error_In in Hrow. apply nth_error_In in Ha.
  rewrite Forall_forall in Hall. specialize (Hall row Hrow).
  rewrite Forall_forall in Hall. exact (Hall a Ha).
Qed.

Lemma pixel_at_shape {A B : Type} (a : list (list A)) (b : list (list B))
    (x y : nat) (v : A) :
  shape a = shape b -> pixel_at a x y = Some v ->
  exists w : B, pixel_at b x y = Some w.
Proof.
  unfold shape, pixel_at. intros Hshape Hv.
  destruct (nth_error a y) as [row |] eqn:Hrow; [| discriminate Hv].
  assert (Hlen : nth_error (map (@length B) b) y = Some (length row)).
  { rewrite <- Hshape, nth_error_map, Hrow. reflexivity. }
  rewrite nth_error_map in Hlen.
  destruct (nth_error b y) as [row' |]; [| discriminate Hlen].
  cbn in Hlen. injection Hlen as Hlen.
  assert (Hx : (x < length row')%nat).
  { rewrite Hlen. apply nth_error_Some. rewrite Hv. discriminate. }
  apply nth_error_Some in Hx.
  destruct (nth_error row' x) as [w |]; [exists w; reflexivity | contradiction].
Qed.

Lemma concat_nil_iff_shape {A : Type} (buf : list (list A)) :
  concat buf = [] <-> Forall (fun n => n = 0%nat) (shape buf).
Proof.
  unfold shape. induction buf as [| row buf IH]; cbn [concat map].
  - split; [intros _; constructor | reflexivity].
  - split.
    + intros H. apply app_eq_nil in H. destruct H as [-> Hrest].
      constructor; [reflexivity | apply IH; exact Hrest].
    + intros H. inversion H as [| n ns Hrow Hrest]; subst.
      apply length_zero_iff_nil in Hrow. rewrite Hrow. cbn.
      apply IH. exact Hrest.
Qed.

Lemma concat_nil_of_shape {A B : Type} (a : list (list A)) (b : list (list B)) :
  shape a = shape b -> concat a = [] -> concat b = [].
Proof.
  intros Hshape Ha. apply concat_nil_iff_shape. rewrite <- Hshape.
  apply concat_nil_iff_shape. exact Ha.
Qed.

(** ** The distance between two colours *)

Lemma euclidean_nonneg (u v : rgb) : 0 <= euclidean u v.
Proof.
  destruct u as [[u1 u2] u3], v as [[v1 v2] v3]. unfold euclidean.
  apply sqrt_pos.
Qed.

Lemma euclidean_zero_iff (u v : rgb) : euclidean u v = 0 <-> u = v.
Proof.
  destruct u as [[u1 u2] u3], v as [[v1 v2] v3]. unfold euclidean.
  split.
  - intros H.
    pose proof (Rle_0_sqr (u1 - v1)) as S1. pose proof (Rle_0_sqr (u2 - v2)) as S2.
    pose proof (Rle_0_sqr (u3 - v3)) as S3. unfold Rsqr in S1, S2, S3.
    apply sqrt_eq_0 in H; [| lra].
    assert (E1 : (u1 - v1) * (u1 - v1) = 0) by lra.
    assert (E2 : (u2 - v2) * (u2 - v2) = 0) by lra.
    assert (E3 : (u3 - v3) * (u3 - v3) = 0) by lra.
    apply Rsqr_0_uniq in E1. apply Rsqr_0_uniq in E2. apply Rsqr_0_uniq in E3.
    apply triple_eq; lra.
  - intros E. injection E as -> -> ->.
    replace ((v1 - v1) * (v1 - v1) + (v2 - v2) * (v2 - v2) + (v3 - v3) * (v3 - v3))
      with 0 by ring.
    exact sqrt_0.
Qed.

Lemma euclidean_unit_bound (u v : rgb) :
  is_unit_pixel u -> is_unit_pixel v -> euclidean u v <= sqrt 3.
Proof.
  destruct u as [[u1 u2] u3], v as [[v1 v2] v3].
  unfold is_unit_pixel, unit_interval, euclidean.
  intros (H1 & H2 & H3) (K1 & K2 & K3).
  apply sqrt_le_1_alt. nra.
Qed.

Lemma normalize_byte_pixel (p : rgb8) :
  is_byte_pixel p -> is_unit_pixel (normalize p).
Proof.
  destruct p as [[r g] b]. unfold is_byte_pixel, is_unit_pixel, normalize.
  intros (Hr & Hg & Hb).
  repeat split; apply byte_unit_interval; assumption.
Qed.

(** ** What [calculate_color_differences] returns and when it raises *)

Lemma calculate_ok_inv (original : list (list rgb)) (processed : image)
    (differences : list (list R)) :
  calculate_color_differences original processed = Ok differences ->
  differences_of original processed = Ok differences /\
  concat differences <> [].
Proof.
  unfold calculate_color_differences.
  destruct (differences_of original processed) as [d | e]; [| discriminate].
  destruct (concat d) as [| v vs] eqn:Hc; [discriminate |].
  intros H. injection H as <-. split; [reflexivity |].
  rewrite Hc. discriminate.
Qed.

(** X13.  When [calculate_color_differences] returns, the map has the
    shape of the original buffer, the original has at least one pixel,
    and the entry at every position of the original is the Euclidean
    distance between the original pixel and the processed pixel there
    divided by 255. *)
Theorem X13_color_differences_returned (original : list (list rgb))
    (processed : image) (differences : list (list R)) :
  calculate_color_differences original processed = Ok differences ->
  shape differences = shape original /\
  concat original <> [] /\
  forall (x y : nat) (o : rgb),
    pixel_at original x y = Some o ->
    exists p : rgb8,
      pixel_at processed x y = Some p /\
      pixel_at differences x y = Some (euclidean o (normalize p)).
Proof.
  intros H. destruct (calculate_ok_inv _ _ _ H) as [Hd Hne].
  destruct (differences_of_ok _ _ _ Hd) as [Hshape Hpoint].
  split; [exact Hshape |]. split; [| exact Hpoint].
  intros Hnil. apply Hne.
  apply (concat_nil_of_shape original differences); [symmetry; exact Hshape | exact Hnil].
Qed.

Lemma X13_color_differences_witness :
  shape [[euclidean (1, 1, 1) (normalize (229, 229, 229)%Z)]] = shape [[(1, 1, 1)]] /\
  concat [[(1, 1, 1)]] <> [] /\
  forall (x y : nat) (o : rgb),
    pixel_at [[(1, 1, 1)]] x y = Some o ->
    exists p : rgb8,
      pixel_at [[(229, 229, 229)%Z]] x y = Some p /\
      pixel_at [[euclidean (1, 1, 1) (normalize (229, 229, 229)%Z)]] x y
        = Some (euclidean o (normalize p)).
Proof.
  apply (X13_color_differences_returned
           [[(1, 1, 1)]] [[(229, 229, 229)%Z]]
           [[euclidean (1, 1, 1) (normalize (229, 229, 229)%Z)]]).
  reflexivity.
Defined.

Lemma traverse_from_err_only {A B : Type} (f : nat -> A -> result B)
    (err : array_exn) (l : list A) :
  forall (i : nat) (e : array_exn),
    (forall (n : nat) (a : A) (e' : array_exn), f n a = Err e' -> e' = err) ->
    traverse_from f i l = Err e -> e = err.
Proof.
  induction l as [| a0 l IH]; intros i e Honly H; cbn [traverse_from] in H.
  - discriminate H.
  - destruct (f i a0) as [b0 | e0] eqn:Hf.
    + destruct (traverse_from f (S i) l) as [bs | e1] eqn:Ht; [discriminate H |].
      injection H as <-. exact (IH (S i) e1 Honly Ht).
    + injection H as <-. exact (Honly i a0 e0 Hf).
Qed.

(** X14.  If the original has a pixel at a position where the processed
    buffer has none (the processed buffer is smaller), the call raises
    [IndexError]. *)
Theorem X14_color_differences_index_error (original : list (list rgb))
    (processed : image) (x y : nat) (o : rgb) :
  pixel_at original x y = Some o ->
  pixel_at processed x y = None ->
  calculate_color_differences original processed = Err IndexError.
Proof.
  intros Ho Hp. unfold calculate_color_differences.
  assert (Hrows : differences_of original processed = Err IndexError).
  { unfold differences_of, pixel_at in *.
    destruct (nth_error original y) as [row |] eqn:Hrow; [| discriminate Ho].
    apply traverse_from_raises.
    - intros n a e He.
      apply (traverse_from_err_only
               (fun x' o' => difference_at processed x' n o') IndexError a 0%nat e);
        [| exact He].
      intros n' a' e'. apply difference_at_only_index_error.
    - exists y, row, IndexError. split; [exact Hrow |].
      cbn [Nat.add]. apply traverse_from_raises.
      + intros n' a' e'. apply difference_at_only_index_error.
      + exists x, o, IndexError. split; [exact Ho |].
        cbn [Nat.add]. unfold difference_at, pixel_at.
        destruct (nth_error processed y) as [prow |]; [rewrite Hp |]; reflexivity. }
  rewrite Hrows. reflexivity.
Qed.

Lemma X14_index_error_witness :
  calculate_color_differences [[(1, 1, 1); (0, 0, 0)]] [[(229, 229, 229)%Z]]
  = Err IndexError.
Proof.
  apply (X14_color_differences_index_error
           [[(1, 1, 1); (0, 0, 0)]] [[(229, 229, 229)%Z]] 1 0 (0, 0, 0));
    reflexivity.
Defined.

Lemma differences_of_no_pixel (processed : image) (original : list (list rgb)) :
  forall i : nat,
    concat original = [] ->
    exists differences : list (list R),
      traverse_from
        (fun y row =>
           traverse_from (fun x o => difference_at processed x y o) 0%nat row)
        i original = Ok differences /\
      concat differences = [].
Proof.
  induction original as [| row original IH]; intros i Hnil.
  - exists []. split; reflexivity.
  - cbn [concat] in Hnil. apply app_eq_nil in Hnil. destruct Hnil as [-> Hrest].
    destruct (IH (S i) Hrest) as (d & Hd & Hc).
    exists ([] :: d). cbn [traverse_from]. rewrite Hd. split; [reflexivity |].
    cbn [concat app]. exact Hc.
Qed.

(** X15.  On an original without any pixel (no row, or rows of width 0)
    the call raises [ValueError], whatever the processed buffer: the
    loops do nothing and the report line takes the maximum of an empty
    array. *)
Theorem X15_color_differences_empty (original : list (list rgb))
    (processed : image) :
  concat original = [] ->
  calculate_color_differences original processed = Err ValueError.
Proof.
  intros Hnil. unfold calculate_color_differences, differences_of.
  destruct (differences_of_no_pixel processed original 0%nat Hnil) as (d & -> & ->).
  reflexivity.
Qed.

Lemma X15_empty_witness :
  calculate_color_differences [[]; []] white_pixel_image = Err ValueError.
Proof.
  apply (X15_color_differences_empty [[]; []] white_pixel_image). reflexivity.
Defined.

Lemma differences_entry (original : list (list rgb)) (processed : image)
    (differences : list (list R)) (x y : nat) (e : R) :
  differences_of original processed = Ok differences ->
  pixel_at differences x y = Some e ->
  exists (o : rgb) (p : rgb8),
    pixel_at original x y = Some o /\
    pixel_at processed x y = Some p /\
    e = euclidean o (normalize p).
Proof.
  intros Hd He. destruct (differences_of_ok _ _ _ Hd) as [Hshape Hpoint].
  destruct (pixel_at_shape differences original x y e Hshape He) as (o & Ho).
  destruct (Hpoint x y o Ho) as (p & Hp & Hdp).
  exists o, p. split; [exact Ho |]. split; [exact Hp |]. congruence.
Qed.

Lemma entry_bounds (o : rgb) (p : rgb8) :
  is_unit_pixel o -> is_byte_pixel p ->
  0 <= euclidean o (normalize p) <= sqrt 3.
Proof.
  intros Ho Hp. split; [apply euclidean_nonneg |].
  apply euclidean_unit_bound; [exact Ho | apply normalize_byte_pixel; exact Hp].
Qed.

(** X16.  When the original channels are in [0,1] and the processed
    pixels are bytes, every entry of the returned map is in
    [0, sqrt 3], and an entry is 0 exactly where the processed pixel
    divided by 255 equals the original pixel. *)
Theorem X16_color_differences_bounds (original : list (list rgb))
    (processed : image) (differences : list (list R)) (x y : nat) (e : R) :
  calculate_color_differences original processed = Ok differences ->
  Forall (Forall is_unit_pixel) original ->
  Forall (Forall is_byte_pixel) processed ->
  pixel_at differences x y = Some e ->
  0 <= e <= sqrt 3 /\
  (e = 0 <->
   exists p : rgb8,
     pixel_at processed x y = Some p /\
     pixel_at original x y = Some (normalize p)).
Proof.
  intros Hcalc Hunit Hbyte He.
  destruct (calculate_ok_inv _ _ _ Hcalc) as [Hd _].
  destruct (differences_entry _ _ _ x y e Hd He) as (o & p & Ho & Hp & ->).
  split.
  - apply entry_bounds.
    + exact (pixel_at_Forall _ _ _ _ _ Hunit Ho).
    + exact (pixel_at_Forall _ _ _ _ _ Hbyte Hp).
  - split.
    + intros Hz. apply euclidean_zero_iff in Hz. exists p.
      split; [exact Hp |]. rewrite Ho, Hz. reflexivity.
    + intros (p' & Hp' & Ho'). apply euclidean_zero_iff. congruence.
Qed.

Lemma X16_bounds_witness :
  0 <= euclidean (1, 1, 1) (normalize (229, 229, 229)%Z) <= sqrt 3 /\
  (euclidean (1, 1, 1) (normalize (229, 229, 229)%Z) = 0 <->
   exists p : rgb8,
     pixel_at [[(229, 229, 229)%Z]] 0 0 = Some p /\
     pixel_at [[(1, 1, 1)]] 0 0 = Some (normalize p)).
Proof.
  apply (X16_color_differences_bounds
           [[(1, 1, 1)]] [[(229, 229, 229)%Z]]
           [[euclidean (1, 1, 1) (normalize (229, 229, 229)%Z)]] 0 0).
  - reflexivity.
  - repeat constructor; unfold unit_interval; lra.
  - repeat constructor; lia.
  - reflexivity.
Defined.

(** ** The difference map of a run *)

Lemma processed_of_pixel_at (cfg : config) (img : image) (x y : nat) (p : rgb8) :
  pixel_at img x y = Some p ->
  pixel_at (processed_of cfg img) x y
  = Some (process_pixel cfg (image_width img) (image_height img)
            (Z.of_nat x) (Z.of_nat y) p).
Proof.
  unfold pixel_at. intros Hp.
  destruct (nth_error img y) as [row |] eqn:Hrow; [| discriminate Hp].
  destruct (run_pixel cfg img x y row p Hrow Hp)
    as (processed & row' & Hrun & Hrow' & Hpix).
  cbn [apply_circular_gradient_hsl_curves] in Hrun.
  injection Hrun as <-. fold (processed_of cfg img) in Hrow'.
  rewrite Hrow'. exact Hpix.
Qed.

Lemma store_rgb_is_byte (p : rgb) : is_byte_pixel (store_rgb p).
Proof.
  destruct p as [[r g] b]. unfold store_rgb, is_byte_pixel, to_uint8.
  pose proof (Z.mod_pos_bound (Py.int r) 256 ltac:(lia)).
  pose proof (Z.mod_pos_bound (Py.int g) 256 ltac:(lia)).
  pose proof (Z.mod_pos_bound (Py.int b) 256 ltac:(lia)).
  lia.
Qed.

Lemma process_pixel_is_byte (cfg : config) (width height x y : Z) (p : rgb8) :
  is_byte_pixel (process_pixel cfg width height x y p).
Proof.
  unfold process_pixel. destruct (normalize p) as [[r g] b].
  destruct (adjust_at cfg width height x y (rgb_to_hsl r g b)) as [[h s] l].
  apply store_rgb_is_byte.
Qed.



(** * Truth-table weighting *)

Lemma pixel_at_mapi2 {A B : Type} (g : Z -> Z -> A -> B) (buf : list (list A))
    (x y : nat) :
  pixel_at (mapi (fun y' row => mapi (fun x' v => g x' y' v) row) buf) x y
  = option_map (g (Z.of_nat x) (Z.of_nat y)) (pixel_at buf x y).
Proof.
  unfold pixel_at, mapi. rewrite nth_error_mapi_from.
  destruct (nth_error buf y) as [row |]; cbn [option_map]; [| reflexivity].
  rewrite nth_error_mapi_from, !Z.add_0_l. reflexivity.
Qed.

Lemma shape_mapi2 {A B : Type} (g : Z -> Z -> A -> B) (buf : list (list A)) :
  shape (mapi (fun y' row => mapi (fun x' v => g x' y' v) row) buf) = shape buf.
Proof. unfold mapi at 1. apply shape_mapi_from. Qed.

Lemma in_slice_true (lo hi i : Z) : (lo <= i < hi)%Z -> in_slice lo hi i = true.
Proof.
  intros H. unfold in_slice. apply andb_true_intro.
  split; [apply Z.leb_le | apply Z.ltb_lt]; lia.
Qed.

Lemma in_slice_false (lo hi i : Z) :
  (i < lo \/ hi <= i)%Z -> in_slice lo hi i = false.
Proof.
  intros H. unfold in_slice. apply andb_false_iff.
  destruct H; [left; apply Z.leb_gt | right; apply Z.ltb_ge]; lia.
Qed.

Lemma pixel_at_scale_columns (c0 c1 w : Z) (data : list (list R)) (x y : nat) :
  pixel_at (scale_columns c0 c1 w data) x y
  = option_map (fun v => if in_slice c0 c1 (Z.of_nat x) then v * IZR w else v)
               (pixel_at data x y).
Proof.
  unfold scale_columns.
  exact (pixel_at_mapi2
           (fun x' _ v => if in_slice c0 c1 x' then v * IZR w else v) data x y).
Qed.

Lemma pixel_at_scale_region (r0 r1 c0 c1 w : Z) (data : list (list R))
    (x y : nat) :
  pixel_at (scale_region r0 r1 c0 c1 w data) x y
  = option_map (fun v => if in_slice r0 r1 (Z.of_nat y)
                            && in_slice c0 c1 (Z.of_nat x)
                         then v * IZR w else v)
               (pixel_at data x y).
Proof.
  unfold scale_region.
  exact (pixel_at_mapi2
           (fun x' y' v => if in_slice r0 r1 y' && in_slice c0 c1 x'
                           then v * IZR w else v) data x y).
Qed.

Lemma shape_scale_columns (c0 c1 w : Z) (data : list (list R)) :
  shape (scale_columns c0 c1 w data) = shape data.
Proof.
  unfold scale_columns.
  exact (shape_mapi2
           (fun x' _ v => if in_slice c0 c1 x' then v * IZR w else v) data).
Qed.

Lemma shape_scale_region (r0 r1 c0 c1 w : Z) (data : list (list R)) :
  shape (scale_region r0 r1 c0 c1 w data) = shape data.
Proof.
  unfold scale_region.
  exact (shape_mapi2
           (fun x' y' v => if in_slice r0 r1 y' && in_slice c0 c1 x'
                           then v * IZR w else v) data).
Qed.

Lemma shape_weight_strips (tv : list Z) (width : Z) (data : list (list R)) :
  shape (weight_strips tv width data) = shape data.
Proof.
  unfold weight_strips. cbn [fold_left].
  rewrite !shape_scale_columns. reflexivity.
Qed.

Lemma shape_weight_quadrants (tv : list Z) (height width : Z)
    (data : list (list R)) :
  shape (weight_quadrants tv height width data) = shape data.
Proof.
  unfold weight_quadrants. cbv zeta.
  rewrite !shape_scale_region. reflexivity.
Qed.

(** Decides every slice test of the goal from the arithmetic at hand. *)
Ltac decide_slices :=
  repeat match goal with
  | |- context [in_slice ?lo ?hi ?i] =>
      first [ rewrite (in_slice_true lo hi i) by lia
            | rewrite (in_slice_false lo hi i) by lia ]
  end.

(** After the eight strips, a value in column [x] has been multiplied
    by the truth value of the strip that holds [x], if any. *)
Lemma pixel_at_weight_strips (tv : list Z) (width : Z) (data : list (list R))
    (x y : nat) (v : R) :
  (0 <= width)%Z ->
  pixel_at data x y = Some v ->
  pixel_at (weight_strips tv width data) x y
  = Some (if (Z.of_nat x <? 8 * (width / 8))%Z
          then v * IZR (truth_value tv (Z.of_nat x / (width / 8)))
          else v).
Proof.
  intros Hw Hv. unfold weight_strips. cbv zeta. cbn [fold_left].
  rewrite !pixel_at_scale_columns, Hv. cbn [option_map]. f_equal.
  set (sw := (width / 8)%Z). set (X := Z.of_nat x).
  assert (Hsw : (0 <= sw)%Z) by (apply Z.div_pos; lia).
  assert (HX : (0 <= X)%Z) by (unfold X; lia).
  destruct (X <? 8 * sw)%Z eqn:Hin.
  - apply Z.ltb_lt in Hin.
    assert (Hpos : (0 < sw)%Z) by lia.
    pose proof (Z.div_mod X sw ltac:(lia)) as Hdm.
    pose proof (Z.mod_pos_bound X sw Hpos) as Hmod.
    set (q := (X / sw)%Z) in *.
    assert (Hq : (0 <= q < 8)%Z) by nia.
    assert (Hlo : (q * sw <= X)%Z) by nia.
    assert (Hhi : (X < (q + 1) * sw)%Z) by nia.
    assert (Hcases : q = 0%Z \/ q = 1%Z \/ q = 2%Z \/ q = 3%Z \/
                     q = 4%Z \/ q = 5%Z \/ q = 6%Z \/ q = 7%Z) by lia.
    clearbody q.
    destruct Hcases as [-> | [-> | [-> | [-> | [-> | [-> | [-> | ->]]]]]]];
      decide_slices; reflexivity.
  - apply Z.ltb_ge in Hin. decide_slices. reflexivity.
Qed.

(** After the four quadrants, a value inside the [height] x [width]
    frame has been multiplied by the truth value of its quadrant. *)
Lemma pixel_at_weight_quadrants (tv : list Z) (height width : Z)
    (data : list (list R)) (x y : nat) (v : R) :
  (Z.of_nat x < width)%Z -> (Z.of_nat y < height)%Z ->
  pixel_at data x y = Some v ->
  pixel_at (weight_quadrants tv height width data) x y
  = Some (v * IZR (truth_value tv
                     ((if (Z.of_nat y <? height / 2)%Z then 0 else 2)
                      + (if (Z.of_nat x <? width / 2)%Z then 0 else 1)))).
Proof.
  intros Hx Hy Hv. unfold weight_quadrants. cbv zeta.
  rewrite !pixel_at_scale_region, Hv. cbn [option_map]. f_equal.
  set (X := Z.of_nat x) in *. set (Y := Z.of_nat y) in *.
  assert (HX : (0 <= X)%Z) by (unfold X; lia).
  assert (HY : (0 <= Y)%Z) by (unfold Y; lia).
  set (hm := (height / 2)%Z). set (wm := (width / 2)%Z).
  destruct (Y <? hm)%Z eqn:Hrow; destruct (X <? wm)%Z eqn:Hcol;
    try apply Z.ltb_lt in Hrow; try apply Z.ltb_ge in Hrow;
    try apply Z.ltb_lt in Hcol; try apply Z.ltb_ge in Hcol;
    decide_slices; reflexivity.
Qed.

Lemma truth_values_of_bad_char (pattern : list ascii) (c : ascii) :
  In c pattern -> digit_of_char c = None ->
  truth_values_of pattern = Err ValueError.
Proof.
  induction pattern as [| c0 rest IH]; intros Hin Hbad; [contradiction |].
  cbn [truth_values_of].
  destruct (digit_of_char c0) as [d |] eqn:Hd; [| reflexivity].
  destruct Hin as [-> | Hin]; [congruence |].
  rewrite (IH Hin Hbad). reflexivity.
Qed.

Lemma nonempty_of_shape {A B : Type} (a : list (list A)) (b : list (list B)) :
  shape b = shape a -> concat a <> [] -> concat b <> [].
Proof.
  intros Hshape Hne Hnil. apply Hne.
  apply (concat_nil_of_shape b a); assumption.
Qed.

(** X18.  With a pattern of eight digits and a non-empty map, each
    column [x] below [8 * (width // 8)] is multiplied by the digit of its
    strip, digit number [x // (width // 8)], and the map keeps its
    shape.  The columns from [8 * (width // 8)] on are returned
    unchanged; so is the whole map when it has fewer than 8 columns. *)
Theorem X18_eight_strips_weighted (data : list (list R)) (pattern : list ascii)
    (tv : list Z) :
  truth_values_of pattern = Ok tv ->
  length tv = 8%nat ->
  concat data <> [] ->
  exists weighted : list (list R),
    apply_truth_table_positional_weighting data pattern = Ok weighted /\
    shape weighted = shape data /\
    forall (x y : nat) (v : R),
      pixel_at data x y = Some v ->
      pixel_at weighted x y
      = Some (if (Z.of_nat x <? 8 * (Z.of_nat (length (hd [] data)) / 8))%Z
              then v * IZR (truth_value tv
                              (Z.of_nat x / (Z.of_nat (length (hd [] data)) / 8)))
              else v).
Proof.
  intros Htv Hlen Hne.
  exists (weight_strips tv (Z.of_nat (length (hd [] data))) data).
  pose proof (shape_weight_strips tv (Z.of_nat (length (hd [] data))) data) as Hshape.
  split; [| split; [exact Hshape |]].
  - unfold apply_truth_table_positional_weighting. cbv zeta.
    rewrite Htv, Hlen.
    change (Z.of_nat 8 =? 0)%Z with false.
    change (negb (2 ^ Z.log2 (Z.of_nat 8) =? Z.of_nat 8)%Z) with false.
    change (Z.log2 (Z.of_nat 8) =? 2)%Z with false.
    change (Z.log2 (Z.of_nat 8) =? 3)%Z with true.
    cbv iota.
    pose proof (nonempty_of_shape data _ Hshape Hne) as Hne'.
    destruct (concat (weight_strips tv (Z.of_nat (length (hd [] data))) data));
      [contradiction | reflexivity].
  - intros x y v Hv. apply pixel_at_weight_strips; [lia | exact Hv].
Qed.

Lemma X18_eight_strips_witness :
  exists weighted : list (list R),
    apply_truth_table_positional_weighting
      [[1; 1; 1; 1; 1; 1; 1; 1; 1]]
      ["0"; "0"; "0"; "1"; "0"; "1"; "1"; "1"]%char = Ok weighted /\
    shape weighted = shape [[1; 1; 1; 1; 1; 1; 1; 1; 1]] /\
    forall (x y : nat) (v : R),
      pixel_at [[1; 1; 1; 1; 1; 1; 1; 1; 1]] x y = Some v ->
      pixel_at weighted x y
      = Some (if (Z.of_nat x
                  <? 8 * (Z.of_nat (length (hd [] [[1; 1; 1; 1; 1; 1; 1; 1; 1]])) / 8))%Z
              then v * IZR (truth_value [0; 0; 0; 1; 0; 1; 1; 1]%Z
                              (Z.of_nat x
                               / (Z.of_nat (length (hd [] [[1; 1; 1; 1; 1; 1; 1; 1; 1]])) / 8)))
              else v).
Proof.
  apply (X18_eight_strips_weighted
           [[1; 1; 1; 1; 1; 1; 1; 1; 1]]
           ["0"; "0"; "0"; "1"; "0"; "1"; "1"; "1"]%char
           [0; 0; 0; 1; 0; 1; 1; 1]%Z).
  - reflexivity.
  - reflexivity.
  - discriminate.
Defined.

Lemma pixel_in_frame (data : list (list R)) (x y : nat) (v : R) :
  Forall (fun row => length row = length (hd [] data)) data ->
  pixel_at data x y = Some v ->
  (Z.of_nat x < Z.of_nat (length (hd [] data)))%Z /\
  (Z.of_nat y < Z.of_nat (length data))%Z.
Proof.
  intros Hrect Hv. unfold pixel_at in Hv.
  destruct (nth_error data y) as [row |] eqn:Hrow; [| discriminate Hv].
  assert (Hy : (y < length data)%nat)
    by (apply nth_error_Some; rewrite Hrow; discriminate).
  assert (Hx : (x < length row)%nat)
    by (apply nth_error_Some; rewrite Hv; discriminate).
  apply nth_error_In in Hrow. rewrite Forall_forall in Hrect.
  rewrite (Hrect row Hrow) in Hx. lia.
Qed.

(** X19.  With a pattern of four digits and a non-empty rectangular map,
    every value is multiplied by the digit of its quadrant: digit 0 for
    the top-left, 1 for the top-right, 2 for the bottom-left and 3 for
    the bottom-right quadrant, the map being cut at row [height // 2] and
    column [width // 2]; the map keeps its shape. *)
Theorem X19_four_quadrants_weighted (data : list (list R))
    (pattern : list ascii) (tv : list Z) :
  truth_values_of pattern = Ok tv ->
  length tv = 4%nat ->
  concat data <> [] ->
  Forall (fun row => length row = length (hd [] data)) data ->
  exists weighted : list (list R),
    apply_truth_table_positional_weighting data pattern = Ok weighted /\
    shape weighted = shape data /\
    forall (x y : nat) (v : R),
      pixel_at data x y = Some v ->
      pixel_at weighted x y
      = Some (v * IZR (truth_value tv
                 ((if (Z.of_nat y <? Z.of_nat (length data) / 2)%Z then 0 else 2)
                  + (if (Z.of_nat x <? Z.of_nat (length (hd [] data)) / 2)%Z
                     then 0 else 1)))).
Proof.
  intros Htv Hlen Hne Hrect.
  exists (weight_quadrants tv (Z.of_nat (length data))
            (Z.of_nat (length (hd [] data))) data).
  pose proof (shape_weight_quadrants tv (Z.of_nat (length data))
                (Z.of_nat (length (hd [] data))) data) as Hshape.
  split; [| split; [exact Hshape |]].
  - unfold apply_truth_table_positional_weighting. cbv zeta.
    rewrite Htv, Hlen.
    change (Z.of_nat 4 =? 0)%Z with false.
    change (negb (2 ^ Z.log2 (Z.of_nat 4) =? Z.of_nat 4)%Z) with false.
    change (Z.log2 (Z.of_nat 4) =? 2)%Z with true.
    cbv iota.
    pose proof (nonempty_of_shape data _ Hshape Hne) as Hne'.
    destruct (concat (weight_quadrants tv (Z.of_nat (length data))
                        (Z.of_nat (length (hd [] data))) data));
      [contradiction | reflexivity].
  - intros x y v Hv.
    destruct (pixel_in_frame data x y v Hrect Hv) as [Hx Hy].
    apply pixel_at_weight_quadrants; assumption.
Qed.

Lemma X19_four_quadrants_witness :
  exists weighted : list (list R),
    apply_truth_table_positional_weighting
      [[1; 2; 3]; [4; 5; 6]; [7; 8; 9]] ["0"; "1"; "1"; "0"]%char = Ok weighted /\
    shape weighted = shape [[1; 2; 3]; [4; 5; 6]; [7; 8; 9]] /\
    forall (x y : nat) (v : R),
      pixel_at [[1; 2; 3]; [4; 5; 6]; [7; 8; 9]] x y = Some v ->
      pixel_at weighted x y
      = Some (v * IZR (truth_value [0; 1; 1; 0]%Z
                 ((if (Z.of_nat y
                       <? Z.of_nat (length [[1; 2; 3]; [4; 5; 6]; [7; 8; 9]]) / 2)%Z
                   then 0 else 2)
                  + (if (Z.of_nat x
                         <? Z.of_nat (length (hd [] [[1; 2; 3]; [4; 5; 6]; [7; 8; 9]])) / 2)%Z
                     then 0 else 1)))).
Proof.
  apply (X19_four_quadrants_weighted
           [[1; 2; 3]; [4; 5; 6]; [7; 8; 9]] ["0"; "1"; "1"; "0"]%char
           [0; 1; 1; 0]%Z).
  - reflexivity.
  - reflexivity.
  - discriminate.
  - repeat constructor.
Defined.

(** X20.  A pattern of digits whose length is neither 4 nor 8 leaves the
    map as it is: when the length is not a power of two the copy is
    returned at once, also for a map without elements; when it is
    another power of two (1, 2, 16, ...) a non-empty map is returned
    unchanged. *)
Theorem X20_other_lengths_unchanged (data : list (list R))
    (pattern : list ascii) (tv : list Z) :
  truth_values_of pattern = Ok tv ->
  tv <> [] -> length tv <> 4%nat -> length tv <> 8%nat ->
  concat data <> []
  \/ (2 ^ Z.log2 (Z.of_nat (length tv)) <> Z.of_nat (length tv))%Z ->
  apply_truth_table_positional_weighting data pattern = Ok data.
Proof.
  intros Htv Hnil H4 H8 Hcase.
  unfold apply_truth_table_positional_weighting. cbv zeta. rewrite Htv.
  set (n := Z.of_nat (length tv)) in *.
  assert (Hn : (0 < n)%Z).
  { unfold n. destruct tv; [contradiction | cbn [length]; lia]. }
  destruct (n =? 0)%Z eqn:H0; [apply Z.eqb_eq in H0; lia |].
  destruct (2 ^ Z.log2 n =? n)%Z eqn:Hpow; cbn [negb]; [| reflexivity].
  apply Z.eqb_eq in Hpow.
  destruct (Z.log2 n =? 2)%Z eqn:Ha2.
  { apply Z.eqb_eq in Ha2. rewrite Ha2 in Hpow. exfalso. unfold n in Hpow. lia. }
  destruct (Z.log2 n =? 3)%Z eqn:Ha3.
  { apply Z.eqb_eq in Ha3. rewrite Ha3 in Hpow. exfalso. unfold n in Hpow. lia. }
  destruct Hcase as [Hne | Hnp]; [| contradiction].
  destruct (concat data); [contradiction | reflexivity].
Qed.

Lemma X20_other_lengths_witness :
  apply_truth_table_positional_weighting [[]] ["0"; "1"; "0"]%char = Ok [[]].
Proof.
  apply (X20_other_lengths_unchanged [[]] ["0"; "1"; "0"]%char [0; 1; 0]%Z).
  - reflexivity.
  - discriminate.
  - discriminate.
  - discriminate.
  - right. discriminate.
Defined.

(** X21.  An empty pattern, and a pattern with a character that is not
    a decimal digit, raise [ValueError], whatever the map. *)
Theorem X21_bad_pattern_value_error (data : list (list R))
    (pattern : list ascii) :
  pattern = [] \/ (exists c : ascii, In c pattern /\ digit_of_char c = None) ->
  apply_truth_table_positional_weighting data pattern = Err ValueError.
Proof.
  intros [-> | (c & Hin & Hbad)];
    unfold apply_truth_table_positional_weighting; cbv zeta.
  - reflexivity.
  - rewrite (truth_values_of_bad_char pattern c Hin Hbad). reflexivity.
Qed.

Lemma X21_bad_pattern_witness :
  apply_truth_table_positional_weighting [[1]] ["0"; "x"; "1"; "1"]%char
  = Err ValueError.
Proof.
  apply (X21_bad_pattern_value_error [[1]] ["0"; "x"; "1"; "1"]%char).
  right. exists "x"%char. split; [right; left; reflexivity | reflexivity].
Defined.
